(** * AudioBufferGroup: a registry of audio buffers over OpenAL / ALURE

    Shallow embedding of [src/OgreGameLib/AudioBufferGroup.cpp]
    (namespace Kyanite).  The class keeps a hash map from relative file
    paths to OpenAL buffer names and talks to four collaborators: the
    file system (boost::filesystem), the ALURE / OpenAL backend, the
    parent [AudioManager] and the application log.  None of the
    collaborators is part of the translation unit, so they are the
    fields of the class [Environment] below; the member functions are
    translated as functions threading a [World] (the object, the
    backend state, the sequence of collaborator calls issued so far and
    the log). *)

From stdpp Require Import gmap strings list fin_maps.

Local Open Scope N_scope.

(** ** Data *)

(** [ALuint] is OpenAL's unsigned 32-bit buffer name.  The code only
    stores names, copies them and compares them with 0. *)
Abbreviation ALuint := N (only parsing).

(** [AL_NONE] is 0, the name of the NULL buffer. *)
Definition AL_NONE : ALuint := 0.

(** The data members of [AudioBufferGroup].  [m_ParentAudioManager] is
    the pointer through which the manager is called; the calls appear
    in the [World] below. *)
Record AudioBufferGroup : Type := mkGroup {
  m_IsParentAudioManagerValid : bool;
  m_GroupName : string;
  m_PathPrefix : string;
  m_Buffers : gmap string ALuint;
  m_BufferGroupLoaded : bool
}.

(** Calls made to the collaborators, in program order. *)
Inductive Call : Type :=
| call_exists (full_file_path : string)
| call_is_regular_file (full_file_path : string)
| call_alureCreateBufferFromFile (fname : string)
| call_alureGetErrorString
| call_alDeleteBuffers (buffer : ALuint)
| call_alIsBuffer (buffer : ALuint)
| call_purgeBufferFromSources (buffer : ALuint).

(** The two Ogre log levels the file uses. *)
Inductive LogMessageLevel : Type := LML_NORMAL | LML_CRITICAL.

(** The six messages of the file, one constructor per format string; the
    fields are the group name and the path or key handed to the format
    (the backend's error string, where one is passed, is not kept). *)
Inductive LogText : Type :=
| msg_cannot_add (group_name full_file_path : string)
| msg_already_in_group (group_name full_file_path : string)
| msg_already_loaded (group_name buffer_name : string)
| msg_cannot_load (group_name full_file_path : string)
| msg_load_error (group_name buffer_name : string)
| msg_still_in_use (group_name buffer_name : string).

Record LogEntry : Type := mkLog {
  log_text : LogText;
  log_level : LogMessageLevel;
  log_flag : bool
}.

(** ** Collaborators *)

(** Everything the translation unit uses and does not define.
    - [loadBuffer_default_verify]: [addBuffer] calls [loadBuffer] with
      one argument, so the header gives [verify_files_exist] a default
      value; the header is not part of the sources, the value is a
      parameter.
    - [fs_exists], [fs_is_regular_file]: boost::filesystem queries.
    - [al_state]: the state of the OpenAL context together with the
      sources the manager tracks; the three backend primitives and the
      manager's [purgeBufferFromSources] act on it.  The manager receives
      the group by reference; its purge is taken to work on the sources
      and not to call back into the group.  [alIsBuffer] is a query.
    - [traversal]: the order in which [begin() .. end()] visits the
      entries of the hash map.  It is unspecified; any enumeration of
      the keys is allowed, and the statements below hold for each.  The
      loops only assign to [second], which does not rehash, so the order
      is the one of the map at the start of the loop. *)
Class Environment : Type := mkEnvironment {
  loadBuffer_default_verify : bool;
  fs_exists : string → bool;
  fs_is_regular_file : string → bool;
  al_state : Type;
  alureCreateBufferFromFile : string → al_state → ALuint * al_state;
  alDeleteBuffers : ALuint → al_state → al_state;
  alIsBuffer : ALuint → al_state → bool;
  purgeBufferFromSources : ALuint → al_state → al_state;
  traversal : gmap string ALuint → list string;
  traversal_perm : ∀ m, traversal m ≡ₚ (map_to_list m).*1
}.

Section Model.
Context `{Env : Environment}.

(** The object together with the collaborators' state. *)
Record World : Type := mkWorld {
  group : AudioBufferGroup;
  openal : al_state;
  calls : list Call;
  log : list LogEntry
}.

(** *** Field updates *)

Definition set_Buffers (m : gmap string ALuint) (g : AudioBufferGroup)
  : AudioBufferGroup :=
  mkGroup (m_IsParentAudioManagerValid g) (m_GroupName g) (m_PathPrefix g)
          m (m_BufferGroupLoaded g).

Definition set_BufferGroupLoaded (b : bool) (g : AudioBufferGroup)
  : AudioBufferGroup :=
  mkGroup (m_IsParentAudioManagerValid g) (m_GroupName g) (m_PathPrefix g)
          (m_Buffers g) b.

Definition with_group (g : AudioBufferGroup) (w : World) : World :=
  mkWorld g (openal w) (calls w) (log w).

Definition with_openal (a : al_state) (w : World) : World :=
  mkWorld (group w) a (calls w) (log w).

Definition record_call (c : Call) (w : World) : World :=
  mkWorld (group w) (openal w) (calls w ++ [c]) (log w).

(** [AppUtility::fLogMessage(format, level, flag, args...)]. *)
Definition fLogMessage (t : LogText) (lvl : LogMessageLevel) (flag : bool)
    (w : World) : World :=
  mkWorld (group w) (openal w) (calls w) (log w ++ [mkLog t lvl flag]).

(** [iter->second = h] for the entry with key [it]. *)
Definition assign_second (it : string) (h : ALuint) (w : World) : World :=
  with_group (set_Buffers (<[it := h]> (m_Buffers (group w))) (group w)) w.

(** *** Member functions *)

(** [getBuffer], lines 37-47. *)
Definition getBuffer (file_path : string) (g : AudioBufferGroup) : ALuint :=
  match m_Buffers g !! file_path with
  | Some second => second
  | None => 0
  end.

(** The test [!exists(p) || !is_regular_file(p)] of lines 71 and 168;
    [||] evaluates its right operand only when the left one is false. *)
Definition not_an_actual_file (p : string) (w : World) : bool * World :=
  let w1 := record_call (call_exists p) w in
  if negb (fs_exists p) then (true, w1)
  else (negb (fs_is_regular_file p), record_call (call_is_regular_file p) w1).

(** [loadBuffer], lines 146-192.  The iterator argument is modelled by
    the key it points to.  The result is [None] when the function reads
    through an iterator that designates no entry, which C++ leaves
    undefined. *)
Definition loadBuffer (buffer_to_load : string) (verify_files_exist : bool)
    (w : World) : option (bool * World) :=
  let g := group w in
  if negb (m_IsParentAudioManagerValid g) then Some (false, w)
  else
    match m_Buffers g !! buffer_to_load with
    | None => None
    | Some second =>
      if negb (second =? 0) then
        Some (false,
              fLogMessage (msg_already_loaded (m_GroupName g) buffer_to_load)
                          LML_NORMAL true w)
      else
        let full_file_path := m_PathPrefix g +:+ buffer_to_load in
        let '(missing, w1) :=
          if verify_files_exist then not_an_actual_file full_file_path w
          else (false, w) in
        if missing then
          Some (false,
                fLogMessage (msg_cannot_load (m_GroupName g) full_file_path)
                            LML_CRITICAL false w1)
        else
          let '(new_buffer, a) :=
            alureCreateBufferFromFile buffer_to_load (openal w1) in
          let w2 :=
            record_call (call_alureCreateBufferFromFile buffer_to_load)
                        (with_openal a w1) in
          if new_buffer =? AL_NONE then
            Some (false,
                  fLogMessage (msg_load_error (m_GroupName g) buffer_to_load)
                              LML_CRITICAL false
                              (record_call call_alureGetErrorString w2))
          else Some (true, assign_second buffer_to_load new_buffer w2)
    end.

(** [unloadBuffer], lines 207-235.  The log call of the failure branch
    passes [alureGetErrorString()] as its second string argument, so the
    accessor is called and its result is what the second [%s] prints. *)
Definition unloadBuffer (buffer_to_load : string) (w : World)
  : option (bool * World) :=
  let g := group w in
  if negb (m_IsParentAudioManagerValid g) then Some (false, w)
  else
    match m_Buffers g !! buffer_to_load with
    | None => None
    | Some second =>
      if negb (second =? 0) then
        let w1 :=
          record_call (call_alDeleteBuffers second)
                      (with_openal (alDeleteBuffers second (openal w)) w) in
        let w2 := record_call (call_alIsBuffer second) w1 in
        if negb (alIsBuffer second (openal w1)) then
          Some (true, assign_second buffer_to_load 0 w2)
        else
          Some (false,
                fLogMessage (msg_still_in_use (m_GroupName g) buffer_to_load)
                            LML_CRITICAL false
                            (record_call call_alureGetErrorString w2))
      else Some (true, w)
    end.

(** The body of the [for] loop of [loadBuffers], lines 199-202, over the
    iterators still to visit.  The counter is a C++ [int]; it is modelled
    as an integer, which is exact below 2^31 entries. *)
Fixpoint loadBuffers_loop (verify_files_exist : bool) (iters : list string)
    (successful_load_count : Z) (w : World) : option (Z * World) :=
  match iters with
  | [] => Some (successful_load_count, w)
  | iter :: rest =>
    match loadBuffer iter verify_files_exist w with
    | None => None
    | Some (ok, w') =>
      loadBuffers_loop verify_files_exist rest
        (if ok then (successful_load_count + 1)%Z else successful_load_count)
        w'
    end
  end.

(** [loadBuffers], lines 194-205. *)
Definition loadBuffers (verify_files_exist : bool) (w : World)
  : option (Z * World) :=
  let w1 := with_group (set_BufferGroupLoaded true (group w)) w in
  loadBuffers_loop verify_files_exist (traversal (m_Buffers (group w1)))
                   0%Z w1.

(** The loop of [unloadBuffers], lines 242-245. *)
Fixpoint unloadBuffers_loop (iters : list string) (failed_unload_count : Z)
    (w : World) : option (Z * World) :=
  match iters with
  | [] => Some (failed_unload_count, w)
  | iter :: rest =>
    match unloadBuffer iter w with
    | None => None
    | Some (ok, w') =>
      unloadBuffers_loop rest
        (if ok then failed_unload_count else (failed_unload_count + 1)%Z) w'
    end
  end.

(** [unloadBuffers], lines 237-248. *)
Definition unloadBuffers (w : World) : option (Z * World) :=
  let w1 := with_group (set_BufferGroupLoaded false (group w)) w in
  unloadBuffers_loop (traversal (m_Buffers (group w1))) 0%Z w1.

(** [addBuffer], lines 60-99.  [emplace] inserts only when the key is
    absent and reports whether it did. *)
Definition addBuffer (file_path : string) (w : World)
  : option (bool * World) :=
  let g := group w in
  if negb (m_IsParentAudioManagerValid g) then Some (false, w)
  else
    let full_file_path := m_PathPrefix g +:+ file_path in
    let '(missing, w1) := not_an_actual_file full_file_path w in
    if missing then
      Some (false,
            fLogMessage (msg_cannot_add (m_GroupName g) full_file_path)
                        LML_CRITICAL false w1)
    else
      match m_Buffers g !! file_path with
      | Some _ =>
        Some (false,
              fLogMessage (msg_already_in_group (m_GroupName g) full_file_path)
                          LML_NORMAL true w1)
      | None =>
        let w2 := assign_second file_path 0 w1 in
        if m_BufferGroupLoaded g then
          loadBuffer file_path loadBuffer_default_verify w2
        else Some (true, w2)
      end.

(** [addBuffers], lines 101-111. *)
Fixpoint addBuffers_loop (file_paths : list string)
    (successful_add_count : Z) (w : World) : option (Z * World) :=
  match file_paths with
  | [] => Some (successful_add_count, w)
  | p :: rest =>
    match addBuffer p w with
    | None => None
    | Some (ok, w') =>
      addBuffers_loop rest
        (if ok then (successful_add_count + 1)%Z else successful_add_count) w'
    end
  end.

Definition addBuffers (file_paths : list string) (w : World)
  : option (Z * World) :=
  addBuffers_loop file_paths 0%Z w.

(** [removeBuffer], lines 113-126. *)
Definition removeBuffer (file_path : string) (w : World) : option World :=
  let g := group w in
  if m_IsParentAudioManagerValid g then
    match m_Buffers g !! file_path with
    | Some second =>
      let w1 :=
        record_call (call_purgeBufferFromSources second)
                    (with_openal (purgeBufferFromSources second (openal w)) w) in
      match unloadBuffer file_path w1 with
      | None => None
      | Some (_, w2) =>
        Some (with_group
                (set_Buffers (delete file_path (m_Buffers (group w2)))
                             (group w2)) w2)
      end
    | None => Some w
    end
  else Some w.

(** *** Observations used in the statements *)

(** The file names passed to [alureCreateBufferFromFile] in a sequence
    of calls, in order. *)
Definition creations (cs : list Call) : list string :=
  omap (λ c, match c with
             | call_alureCreateBufferFromFile fname => Some fname
             | _ => None
             end) cs.

(** The buffer names passed to [alDeleteBuffers], in order. *)
Definition deletions (cs : list Call) : list ALuint :=
  omap (λ c, match c with
             | call_alDeleteBuffers buffer => Some buffer
             | _ => None
             end) cs.

(** The guards of [loadBuffer] that precede the backend call: the
    manager is valid, the handle is 0 and, when verification is
    requested, the prefixed path is a regular file. *)
Definition load_reaches_backend (g : AudioBufferGroup)
    (verify_files_exist : bool) (it : string) : bool :=
  m_IsParentAudioManagerValid g
  && (getBuffer it g =? 0)
  && (negb verify_files_exist
      || (fs_exists (m_PathPrefix g +:+ it)
          && fs_is_regular_file (m_PathPrefix g +:+ it))).

(** The calls [unloadBuffer] issues for a handle [h] when the manager is
    valid and the backend is in state [a]. *)
Definition unload_calls (h : ALuint) (a : al_state) : list Call :=
  if h =? 0 then []
  else call_alDeleteBuffers h :: call_alIsBuffer h ::
       (if alIsBuffer h (alDeleteBuffers h a) then [call_alureGetErrorString]
        else []).

(** The handles of the entries visited by a traversal, in order. *)
Definition handles (g : AudioBufferGroup) (iters : list string)
  : list ALuint :=
  (λ k, getBuffer k g) <$> iters.

(** The number of entries whose handle is not 0. *)
Definition loaded_count (m : gmap string ALuint) : nat :=
  size (filter (λ kh : string * N, kh.2 ≠ 0) m).

(** The reading of [unloadBuffers] under which the result counts the
    entries left loaded, in every state. *)
Definition unloadBuffers_counts_loaded (w : World) : Prop :=
  ∃ (n : Z) (w' : World),
    unloadBuffers w = Some (n, w')
    ∧ m_BufferGroupLoaded (group w') = false
    ∧ n = Z.of_nat (loaded_count (m_Buffers (group w'))).

(** The reading of [addBuffer] under which every path that passes the
    manager and file guards is inserted and the call returns true, the
    entry being loaded when the group is in the loaded state. *)
Definition addBuffer_admitted_succeeds (w : World) (p : string) : Prop :=
  m_Buffers (group w) !! p = None →
  m_IsParentAudioManagerValid (group w) = true →
  fs_exists (m_PathPrefix (group w) +:+ p) = true →
  fs_is_regular_file (m_PathPrefix (group w) +:+ p) = true →
  ∃ w' : World,
    addBuffer p w = Some (true, w')
    ∧ is_Some (m_Buffers (group w') !! p)
    ∧ (m_BufferGroupLoaded (group w) = true → getBuffer p (group w') ≠ 0).

End Model.

Arguments World {_}.

(** ** The rest of the class *)

Section Batch.
Context `{Env : Environment}.

(** [removeBuffers], lines 128-134: [removeBuffer] on every path of the
    vector, in order. *)
Fixpoint removeBuffers (file_paths : list string) (w : World)
  : option World :=
  match file_paths with
  | [] => Some w
  | p :: rest =>
    match removeBuffer p w with
    | None => None
    | Some w' => removeBuffers rest w'
    end
  end.

(** The guards of [addBuffer] that precede [emplace]: the manager is
    valid and the prefixed path is an existing regular file. *)
Definition admitted (g : AudioBufferGroup) (file_path : string) : bool :=
  m_IsParentAudioManagerValid g
  && fs_exists (m_PathPrefix g +:+ file_path)
  && fs_is_regular_file (m_PathPrefix g +:+ file_path).

(** The number of entries whose handle is 0. *)
Definition unloaded_count (m : gmap string ALuint) : nat :=
  size (filter (λ kh : string * N, kh.2 = 0) m).

End Batch.

(** What the constructors, the destructor and [removeAllBuffers] use on
    top of [Environment].
    - [m_BufferGroupLoaded_initial]: neither constructor mentions
      [m_BufferGroupLoaded] in its initialiser list or body, so the value
      the member has when a constructor body starts comes from the
      header, which is not part of the sources.
    - [purgeBufferGroupFromSources]: the manager's purge of a whole
      group; it receives the group and acts on the sources.  The call
      list of [World] has no entry for it: its effect is applied to the
      backend state at the place of the call. *)
Class ManagerEnvironment : Type := mkManagerEnvironment {
  manager_base :: Environment;
  m_BufferGroupLoaded_initial : bool;
  purgeBufferGroupFromSources : AudioBufferGroup → al_state → al_state
}.

Section Lifetime.
Context `{MEnv : ManagerEnvironment}.

(** The state in which the manager's purge of this group leaves the
    world. *)
Definition after_group_purge (w : World) : World :=
  with_openal (purgeBufferGroupFromSources (group w) (openal w)) w.

(** [removeAllBuffers], lines 136-144. *)
Definition removeAllBuffers (w : World) : option World :=
  if m_IsParentAudioManagerValid (group w) then
    match unloadBuffers (after_group_purge w) with
    | None => None
    | Some (_, w') => Some (with_group (set_Buffers ∅ (group w')) w')
    end
  else Some w.


(** The three-argument constructor, lines 22-26: the object it leaves. *)
Definition AudioBufferGroup_ctor (group_name path_prefix : string)
  : AudioBufferGroup :=
  mkGroup true group_name path_prefix ∅ m_BufferGroupLoaded_initial.

(** The five-argument constructor, lines 10-20, run against a backend in
    state [a] after the calls [cs] and the log [lg]. *)
Definition AudioBufferGroup_ctor_files (group_name path_prefix : string)
    (file_paths : list string) (load_files : bool)
    (a : al_state) (cs : list Call) (lg : list LogEntry) : option World :=
  let w0 := mkWorld (AudioBufferGroup_ctor group_name path_prefix) a cs lg in
  match addBuffers file_paths w0 with
  | None => None
  | Some (_, w1) =>
    if load_files then
      match loadBuffers false w1 with
      | None => None
      | Some (_, w2) => Some w2
      end
    else Some w1
  end.

End Lifetime.

(** ** A test double for the collaborators

    A small executable environment on which the statements below are
    run: a fixed disk, a backend that hands out fresh buffer names for
    the audio files it is given and refuses to delete a buffer that a
    source still plays, and a manager whose purge detaches a buffer from
    the sources it tracks. *)
Module Mock.

(** What a path of the disk names. *)
Inductive kind : Type := directory | audio_file | other_file.

#[local] Instance kind_eq_dec : EqDecision kind.
Proof. solve_decision. Defined.

Definition disk : list (string * kind) :=
  [ ("sfx/", directory); ("sfx/hit.wav", audio_file);
    ("sfx/miss.wav", audio_file); ("boom.wav", audio_file);
    ("readme.txt", other_file); ("music", directory) ].

Definition on_disk (p : string) : bool :=
  bool_decide (p ∈ disk.*1).

Definition regular (p : string) : bool :=
  bool_decide ((p, audio_file) ∈ disk) || bool_decide ((p, other_file) ∈ disk).

(** The files the backend can decode. *)
Definition decodable (p : string) : bool :=
  bool_decide ((p, audio_file) ∈ disk).

(** Backend state: the names that are valid buffers, the names attached
    to sources the manager tracks, the names attached to sources it does
    not track, and the next fresh name. *)
Record al : Type := mkAl {
  valid_names : list ALuint;
  tracked : list ALuint;
  untracked : list ALuint;
  next_name : ALuint
}.

Definition create (fname : string) (a : al) : ALuint * al :=
  if decodable fname then
    (next_name a,
     mkAl (next_name a :: valid_names a) (tracked a) (untracked a)
          (next_name a + 1))
  else (AL_NONE, a).

Definition in_use (h : ALuint) (a : al) : bool :=
  bool_decide (h ∈ tracked a) || bool_decide (h ∈ untracked a).

Definition delete_buffer (h : ALuint) (a : al) : al :=
  if in_use h a then a
  else mkAl (filter (λ x, x ≠ h) (valid_names a)) (tracked a) (untracked a)
            (next_name a).

Definition is_buffer (h : ALuint) (a : al) : bool :=
  bool_decide (h = 0) || bool_decide (h ∈ valid_names a).

Definition purge (h : ALuint) (a : al) : al :=
  mkAl (valid_names a) (filter (λ x, x ≠ h) (tracked a)) (untracked a)
       (next_name a).

#[export] Instance env : Environment :=
  mkEnvironment false on_disk regular al create delete_buffer is_buffer purge
                (λ m, (map_to_list m).*1) (λ m, reflexivity _).

Definition fresh : al := mkAl [] [] [] 1.

Definition world (valid : bool) (prefix : string) (m : gmap string ALuint)
    (loaded : bool) (a : al) : World :=
  mkWorld (mkGroup valid "fx" prefix m loaded) a [] [].

(** A group under the prefix [sfx/] with one unloaded entry. *)
Definition sfx_unloaded : World :=
  world true "sfx/" {[ "hit.wav" := 0 ]} false fresh.

(** An empty group under the prefix [sfx/], in the loaded state. *)
Definition sfx_empty_loaded : World :=
  world true "sfx/" ∅ true fresh.

(** An empty group without prefix, in the loaded state. *)
Definition root_empty_loaded : World :=
  world true "" ∅ true fresh.

(** A group whose buffer 3 is played by a source the manager does not
    track, next to buffer 4, which nothing plays, and an unloaded entry. *)
Definition playing : World :=
  world true "" {[ "boom.wav" := 3; "sfx/hit.wav" := 4; "sfx/miss.wav" := 0 ]}
        true (mkAl [4; 3] [] [3] 5).

(** The same registry after the manager has been invalidated. *)
Definition orphaned : World :=
  world false "" {[ "boom.wav" := 3; "sfx/miss.wav" := 0 ]} true
        (mkAl [3] [] [] 4).

End Mock.


(** The test double with a manager whose group purge detaches every
    buffer of the group from the sources it tracks, and a header that
    starts a group in the unloaded state. *)
Module MockManager.

Definition purge_group (g : AudioBufferGroup) (a : Mock.al) : Mock.al :=
  Mock.mkAl (Mock.valid_names a)
            (filter (λ x, x ∉ (map_to_list (m_Buffers g)).*2) (Mock.tracked a))
            (Mock.untracked a) (Mock.next_name a).

#[export] Instance env : ManagerEnvironment :=
  mkManagerEnvironment Mock.env false purge_group.

(** A group with one loaded buffer that nothing plays. *)
Definition idle : World :=
  Mock.world true "" {[ "sfx/hit.wav" := 4 ]} true (Mock.mkAl [4] [] [] 5).

End MockManager.

(** * Properties *)

Section Properties.
Context `{Env : Environment}.
Implicit Types (w : World) (g : AudioBufferGroup) (h : ALuint).
Implicit Types (p it : string).

(** Reduce projections of updated worlds and groups. *)
Ltac wsimpl :=
  cbn [group openal calls log with_group with_openal record_call fLogMessage
       assign_second set_Buffers set_BufferGroupLoaded
       m_IsParentAudioManagerValid m_GroupName m_PathPrefix m_Buffers
       m_BufferGroupLoaded negb fst snd].

(** ** The existence test *)

Lemma not_an_actual_file_value p w :
  (not_an_actual_file p w).1 = negb (fs_exists p && fs_is_regular_file p).
Proof.
  unfold not_an_actual_file.
  destruct (fs_exists p); [ | reflexivity].
  destruct (fs_is_regular_file p); reflexivity.
Qed.

Lemma not_an_actual_file_group p w :
  group (not_an_actual_file p w).2 = group w.
Proof. unfold not_an_actual_file. by destruct (fs_exists p). Qed.

Lemma not_an_actual_file_openal p w :
  openal (not_an_actual_file p w).2 = openal w.
Proof. unfold not_an_actual_file. by destruct (fs_exists p). Qed.

Lemma not_an_actual_file_calls p w :
  calls (not_an_actual_file p w).2 =
  calls w ++ call_exists p ::
    (if fs_exists p then [call_is_regular_file p] else []).
Proof.
  unfold not_an_actual_file.
  destruct (fs_exists p); simpl; [ | reflexivity].
  by rewrite <- app_assoc.
Qed.

Lemma nonzero_test h : h ≠ 0 → (h =? 0) = false.
Proof. intros Hh. by apply N.eqb_neq. Qed.

Lemma string_length_append (s t : string) :
  String.length (s +:+ t) = (String.length s + String.length t)%nat.
Proof. induction s as [ | c s IH]; simpl; [reflexivity | by rewrite IH]. Qed.

(** Prefixing a path with a non-empty string changes it. *)
Lemma append_nonempty_neq (prefix p : string) :
  prefix ≠ "" → prefix +:+ p ≠ p.
Proof.
  intros Hne Heq.
  assert (Hlen : String.length (prefix +:+ p) = String.length p)
    by (by rewrite Heq).
  rewrite string_length_append in Hlen.
  destruct prefix as [ | c prefix]; [done | ].
  simpl in Hlen. lia.
Qed.

(** ** addBuffer on a registered path *)

Lemma addBuffer_duplicate w p h :
  m_Buffers (group w) !! p = Some h →
  ∃ w', addBuffer p w = Some (false, w')
        ∧ group w' = group w
        ∧ openal w' = openal w.
Proof.
  intros Hreg. unfold addBuffer.
  destruct (m_IsParentAudioManagerValid (group w)); cbn [negb].
  - destruct (not_an_actual_file (m_PathPrefix (group w) +:+ p) w)
      as [missing w1] eqn:Hchk.
    pose proof (not_an_actual_file_group (m_PathPrefix (group w) +:+ p) w)
      as Hg.
    pose proof (not_an_actual_file_openal (m_PathPrefix (group w) +:+ p) w)
      as Ha.
    rewrite Hchk in Hg, Ha. simpl in Hg, Ha.
    destruct missing.
    + eexists. split; [reflexivity | ]. simpl. by rewrite Hg, Ha.
    + rewrite Hreg. eexists. split; [reflexivity | ]. simpl.
      by rewrite Hg, Ha.
  - by exists w.
Qed.

(** C1. For every state and every path that is already a key of
    [m_Buffers], [addBuffer] returns false and leaves the buffer map as
    it was (same keys, same handles); the other data members and the
    backend state are unchanged as well. *)
Theorem addBuffer_registered w p h :
  m_Buffers (group w) !! p = Some h →
  ∃ w', addBuffer p w = Some (false, w')
        ∧ m_Buffers (group w') = m_Buffers (group w)
        ∧ group w' = group w
        ∧ openal w' = openal w.
Proof.
  intros Hreg.
  destruct (addBuffer_duplicate w p h Hreg) as (w' & Hadd & Hg & Ha).
  exists w'. split_and!; [done | by rewrite Hg | done | done].
Qed.

(** In the batch variant a registered path does not count as a success
    and the number of entries stays the same. *)
Lemma addBuffers_duplicate w p h :
  m_Buffers (group w) !! p = Some h →
  ∃ w', addBuffers [p] w = Some (0%Z, w')
        ∧ size (m_Buffers (group w')) = size (m_Buffers (group w)).
Proof.
  intros Hreg.
  destruct (addBuffer_duplicate w p h Hreg) as (w' & Hadd & Hg & _).
  exists w'. unfold addBuffers. cbn [addBuffers_loop].
  rewrite Hadd. split; [done | by rewrite Hg].
Qed.

(** ** loadBuffer *)

(** C2. For every entry whose handle is not 0, [loadBuffer] returns
    false and changes nothing: the data members (the entry's handle,
    every other entry, the loaded flag), the backend state and the
    sequence of collaborator calls are as before; no call is made. *)
Theorem loadBuffer_already_loaded w it h (verify_files_exist : bool) :
  m_Buffers (group w) !! it = Some h →
  h ≠ 0 →
  ∃ w', loadBuffer it verify_files_exist w = Some (false, w')
        ∧ group w' = group w
        ∧ m_Buffers (group w') !! it = Some h
        ∧ m_BufferGroupLoaded (group w') = m_BufferGroupLoaded (group w)
        ∧ openal w' = openal w
        ∧ calls w' = calls w.
Proof.
  intros Hit Hh. unfold loadBuffer.
  destruct (m_IsParentAudioManagerValid (group w)); cbn [negb].
  - rewrite Hit, (nonzero_test h Hh). simpl.
    eexists. split; [reflexivity | ]. by cbn.
  - by exists w.
Qed.

(** C5. For every entry with handle 0, if the backend creates no buffer
    for the entry's path ([alureCreateBufferFromFile] returns
    [AL_NONE]), [loadBuffer] returns false, the handle is still 0 and no
    data member has changed. *)
Theorem loadBuffer_backend_failure w it (verify_files_exist : bool) :
  m_Buffers (group w) !! it = Some 0 →
  (alureCreateBufferFromFile it (openal w)).1 = AL_NONE →
  ∃ w', loadBuffer it verify_files_exist w = Some (false, w')
        ∧ m_Buffers (group w') !! it = Some 0
        ∧ group w' = group w.
Proof.
  intros Hit Hfail. unfold loadBuffer.
  destruct (m_IsParentAudioManagerValid (group w)); cbn [negb].
  - rewrite Hit. simpl.
    destruct verify_files_exist.
    + destruct (not_an_actual_file (m_PathPrefix (group w) +:+ it) w)
        as [missing w1] eqn:Hchk.
      pose proof (not_an_actual_file_group (m_PathPrefix (group w) +:+ it) w)
        as Hg.
      pose proof (not_an_actual_file_openal (m_PathPrefix (group w) +:+ it) w)
        as Ha.
      rewrite Hchk in Hg, Ha. simpl in Hg, Ha.
      destruct missing.
      * eexists. split; [reflexivity | ]. simpl. by rewrite Hg, Hit.
      * rewrite Ha.
        destruct (alureCreateBufferFromFile it (openal w)) as [nb a].
        simpl in Hfail. subst nb. simpl.
        eexists. split; [reflexivity | ]. simpl. by rewrite Hg, Hit.
    + destruct (alureCreateBufferFromFile it (openal w)) as [nb a].
      simpl in Hfail. subst nb. simpl.
      eexists. split; [reflexivity | ]. simpl. by rewrite Hit.
  - exists w. by rewrite Hit.
Qed.

(** ** unloadBuffer *)

(** C3. For every entry with a handle [h] other than 0, if the backend
    still reports [h] as a buffer once its deletion has been requested,
    [unloadBuffer] returns false and the entry keeps [h]; when the
    manager is valid the deletion is requested exactly once and not
    retried. *)
Theorem unloadBuffer_still_in_use w it h :
  m_Buffers (group w) !! it = Some h →
  h ≠ 0 →
  alIsBuffer h (alDeleteBuffers h (openal w)) = true →
  ∃ w', unloadBuffer it w = Some (false, w')
        ∧ m_Buffers (group w') !! it = Some h
        ∧ group w' = group w
        ∧ (m_IsParentAudioManagerValid (group w) = true →
           calls w' = calls w ++ [call_alDeleteBuffers h; call_alIsBuffer h;
                                  call_alureGetErrorString]).
Proof.
  intros Hit Hh Hstill. unfold unloadBuffer.
  destruct (m_IsParentAudioManagerValid (group w)); cbn [negb].
  - rewrite Hit, (nonzero_test h Hh). simpl. rewrite Hstill. simpl.
    eexists. split; [reflexivity | ]. simpl.
    rewrite Hit. repeat split; try done.
    intros _. by rewrite <- !app_assoc.
  - exists w. rewrite Hit. repeat split; done.
Qed.

(** ** removeBuffer *)

(** C4. For every registered path [p] with handle [h], when the manager
    is valid [removeBuffer p] calls the manager's purge for [h] first,
    then runs the unload (its backend calls follow the purge in the call
    sequence), then erases the entry: the map is the old one without
    [p], and [getBuffer p] is 0 afterwards.  When the manager is invalid
    or [p] is not registered, [removeBuffer p] changes nothing. *)
Theorem removeBuffer_spec w p :
  (∀ h, m_IsParentAudioManagerValid (group w) = true →
        m_Buffers (group w) !! p = Some h →
        ∃ w', removeBuffer p w = Some w'
          ∧ calls w' =
              calls w ++ call_purgeBufferFromSources h ::
                unload_calls h (purgeBufferFromSources h (openal w))
          ∧ m_Buffers (group w') = delete p (m_Buffers (group w))
          ∧ getBuffer p (group w') = 0)
  ∧ (m_IsParentAudioManagerValid (group w) = false
     ∨ m_Buffers (group w) !! p = None →
     removeBuffer p w = Some w).
Proof.
  split.
  - intros h Hvalid Hreg. unfold removeBuffer, unloadBuffer, unload_calls.
    wsimpl. rewrite Hvalid, Hreg. wsimpl.
    assert (Hget : ∀ m : gmap string N,
               getBuffer p (set_Buffers (delete p m) (group w)) = 0).
    { intros m. unfold getBuffer. wsimpl. by rewrite lookup_delete_eq. }
    destruct (h =? 0) eqn:Hz; wsimpl.
    + eexists. split; [reflexivity | ]. wsimpl. split_and!; [done | done | ].
      apply Hget.
    + destruct (alIsBuffer h (alDeleteBuffers h _)) eqn:Hstill; wsimpl.
      * eexists. split; [reflexivity | ]. wsimpl.
        split_and!; [by rewrite <- !app_assoc | done | apply Hget].
      * eexists. split; [reflexivity | ]. wsimpl.
        split_and!; [by rewrite <- !app_assoc | | ].
        -- by rewrite delete_insert_eq.
        -- unfold getBuffer. wsimpl. by rewrite lookup_delete_eq.
  - intros [Hinvalid | Hnone]; unfold removeBuffer.
    + by rewrite Hinvalid.
    + rewrite Hnone. by destruct (m_IsParentAudioManagerValid (group w)).
Qed.

(** C10. For every registered path [p] with a non-zero handle [h] and a
    valid manager: if the backend still reports [h] as a buffer after
    the purge and the deletion request, the unload step of
    [removeBuffer p] fails, and the entry is erased all the same, so the
    map no longer holds [p] while [h] is still a buffer of the
    backend. *)
Theorem removeBuffer_erases_after_failed_unload w p h :
  m_IsParentAudioManagerValid (group w) = true →
  m_Buffers (group w) !! p = Some h →
  h ≠ 0 →
  alIsBuffer h (alDeleteBuffers h (purgeBufferFromSources h (openal w)))
    = true →
  ∃ w1 w',
    unloadBuffer p
      (record_call (call_purgeBufferFromSources h)
         (with_openal (purgeBufferFromSources h (openal w)) w))
      = Some (false, w1)
    ∧ removeBuffer p w = Some w'
    ∧ m_Buffers (group w') = delete p (m_Buffers (group w))
    ∧ m_Buffers (group w') !! p = None
    ∧ alIsBuffer h (openal w') = true.
Proof.
  intros Hvalid Hreg Hh Hstill.
  unfold removeBuffer. rewrite Hvalid, Hreg.
  unfold unloadBuffer. wsimpl.
  rewrite Hvalid, Hreg, (nonzero_test h Hh). wsimpl.
  rewrite Hstill. wsimpl.
  eexists _, _. split; [reflexivity | ]. split; [reflexivity | ].
  wsimpl. split_and!; [done | by rewrite lookup_delete_eq | done].
Qed.

(** ** The path checked and the path loaded *)

(** C9. When [loadBuffer] reaches the backend (valid manager, handle 0,
    and the existence check, if requested, passes), the calls it makes
    are: the existence checks on the prefix-concatenated path when
    [verify_files_exist] is set, then [alureCreateBufferFromFile] on the
    entry's key alone, without the prefix.  [addBuffer] opens with the
    existence check on the prefix-concatenated path too.  With a
    non-empty prefix the two paths differ. *)
Theorem loadBuffer_checked_and_loaded_paths w it (verify_files_exist : bool) :
  m_IsParentAudioManagerValid (group w) = true →
  m_Buffers (group w) !! it = Some 0 →
  (verify_files_exist = true →
   fs_exists (m_PathPrefix (group w) +:+ it) = true
   ∧ fs_is_regular_file (m_PathPrefix (group w) +:+ it) = true) →
  let checked := m_PathPrefix (group w) +:+ it in
  (∃ ok w',
     loadBuffer it verify_files_exist w = Some (ok, w')
     ∧ calls w' =
         calls w
         ++ (if verify_files_exist
             then [call_exists checked; call_is_regular_file checked]
             else [])
         ++ call_alureCreateBufferFromFile it ::
            (if ok then [] else [call_alureGetErrorString]))
  ∧ (∀ p, ∃ r, addBuffer p w = Some r
        ∧ ∃ rest, calls r.2 =
            calls w ++ call_exists (m_PathPrefix (group w) +:+ p) :: rest)
  ∧ (m_PathPrefix (group w) ≠ "" → checked ≠ it).
Proof.
  intros Hvalid Hit Hfile checked. subst checked. split_and!.
  - unfold loadBuffer. rewrite Hvalid, Hit. cbn [negb N.eqb].
    destruct verify_files_exist.
    + destruct (Hfile eq_refl) as [Hex Hreg].
      unfold not_an_actual_file. rewrite Hex, Hreg. wsimpl.
      destruct (alureCreateBufferFromFile it (openal w)) as [nb a].
      destruct (nb =? AL_NONE); eexists _, _; (split; [reflexivity | ]);
        wsimpl; by rewrite <- !app_assoc.
    + destruct (alureCreateBufferFromFile it (openal w)) as [nb a].
      destruct (nb =? AL_NONE); eexists _, _; (split; [reflexivity | ]);
        wsimpl; by rewrite <- ?app_assoc.
  - intros p. unfold addBuffer. rewrite Hvalid. wsimpl.
    unfold not_an_actual_file.
    set (full := m_PathPrefix (group w) +:+ p).
    destruct (fs_exists full) eqn:Hex; wsimpl.
    2:{ eexists. split; [reflexivity | ]. wsimpl. by eexists. }
    destruct (fs_is_regular_file full) eqn:Hreg; wsimpl.
    2:{ eexists. split; [reflexivity | ]. wsimpl. rewrite <- app_assoc.
        by eexists. }
    destruct (m_Buffers (group w) !! p) eqn:Hp.
    { eexists. split; [reflexivity | ]. wsimpl. rewrite <- app_assoc.
      by eexists. }
    destruct (m_BufferGroupLoaded (group w)).
    2:{ eexists. split; [reflexivity | ]. wsimpl. rewrite <- app_assoc.
        by eexists. }
    unfold loadBuffer. wsimpl.
    rewrite Hvalid, lookup_insert_eq. cbn [negb N.eqb].
    fold full. unfold not_an_actual_file. rewrite Hex, Hreg. wsimpl.
    destruct loadBuffer_default_verify;
      destruct (alureCreateBufferFromFile p _) as [nb a];
      destruct (nb =? AL_NONE); (eexists; split; [reflexivity | ]);
      wsimpl; rewrite <- !app_assoc; by eexists.
  - intros Hne. by apply append_nonempty_neq.
Qed.

(** ** Counting over the keys of a map *)

Lemma filter_ext_elem {A} (P Q : A → Prop)
    `{!∀ x, Decision (P x), !∀ x, Decision (Q x)} (l : list A) :
  (∀ x, x ∈ l → (P x ↔ Q x)) → filter P l = filter Q l.
Proof.
  induction l as [ | a l IH]; intros Hext; [done | ].
  rewrite !filter_cons.
  rewrite IH by (intros x Hx; apply Hext; by right).
  destruct (decide (P a)) as [HP | HP], (decide (Q a)) as [HQ | HQ];
    try done; exfalso; apply (Hext a) in HP || apply (Hext a) in HQ;
    done || by left.
Qed.

Lemma set_Buffers_id g it h :
  m_Buffers g !! it = Some h →
  set_Buffers (<[it := h]> (m_Buffers g)) g = g.
Proof.
  intros Hit. unfold set_Buffers. rewrite insert_id by done. by destruct g.
Qed.

Lemma getBuffer_lookup g it h :
  m_Buffers g !! it = Some h → getBuffer it g = h.
Proof. intros Hit. unfold getBuffer. by rewrite Hit. Qed.

(** A count over the keys, in any enumeration order, is the size of the
    corresponding filtered map. *)
Lemma count_keys_size (P : string → N → Prop)
    `{!∀ k h, Decision (P k h)} g (l : list string) :
  l ≡ₚ (map_to_list (m_Buffers g)).*1 →
  length (filter (λ k, P k (getBuffer k g)) l)
  = size (filter (λ kh : string * N, P kh.1 kh.2) (m_Buffers g)).
Proof.
  intros Hl. rewrite Hl. clear l Hl.
  rewrite <- length_map_to_list.
  assert (Hperm : map_to_list (filter (λ kh : string * N, P kh.1 kh.2)
                                 (m_Buffers g))
                  ≡ₚ filter (λ kh : string * N, P kh.1 kh.2)
                       (map_to_list (m_Buffers g))).
  { apply NoDup_Permutation.
    - apply NoDup_map_to_list.
    - apply NoDup_filter, NoDup_map_to_list.
    - intros [k h]. rewrite list_elem_of_filter, !elem_of_map_to_list.
      rewrite map_lookup_filter_Some. cbn [fst snd]. tauto. }
  rewrite Hperm. clear Hperm.
  assert (Hall : ∀ kh, kh ∈ map_to_list (m_Buffers g) →
                       m_Buffers g !! kh.1 = Some kh.2).
  { intros [k h]. by rewrite elem_of_map_to_list. }
  induction (map_to_list (m_Buffers g)) as [ | [k h] l IH]; [done | ].
  rewrite fmap_cons, !filter_cons. cbn [fst snd].
  rewrite (getBuffer_lookup g k h) by (apply (Hall (k, h)); by left).
  specialize (IH (λ kh Hkh, Hall kh (list_elem_of_further _ _ _ Hkh))).
  destruct (decide (P k h)); cbn [length]; by rewrite IH.
Qed.

Lemma creations_app (cs1 cs2 : list Call) :
  creations (cs1 ++ cs2) = creations cs1 ++ creations cs2.
Proof. apply omap_app. Qed.

Lemma deletions_app (cs1 cs2 : list Call) :
  deletions (cs1 ++ cs2) = deletions cs1 ++ deletions cs2.
Proof. apply omap_app. Qed.

(** ** loadBuffers *)

(** One call of [loadBuffer] on an entry: it is defined, touches only
    that entry, never overwrites a non-zero handle, succeeds exactly when
    it takes the entry from 0 to a non-zero handle, and calls
    [alureCreateBufferFromFile] once, on the entry's key, exactly when
    the guards let it through. *)
Lemma loadBuffer_entry w it h (verify_files_exist : bool) :
  m_Buffers (group w) !! it = Some h →
  ∃ ok h' w' cs,
    loadBuffer it verify_files_exist w = Some (ok, w')
    ∧ group w' = set_Buffers (<[it := h']> (m_Buffers (group w))) (group w)
    ∧ (h ≠ 0 → h' = h)
    ∧ ok = bool_decide (h = 0 ∧ h' ≠ 0)
    ∧ calls w' = calls w ++ cs
    ∧ creations cs =
        if load_reaches_backend (group w) verify_files_exist it
        then [it] else [].
Proof.
  intros Hit. unfold loadBuffer, load_reaches_backend.
  rewrite (getBuffer_lookup _ _ _ Hit).
  pose proof (set_Buffers_id _ _ _ Hit) as Hid.
  destruct (m_IsParentAudioManagerValid (group w)) eqn:Hvalid; wsimpl.
  2:{ exists false, h, w, []. rewrite Hid, app_nil_r.
      split_and!; try done.
      symmetry. apply bool_decide_eq_false. tauto. }
  rewrite Hit.
  destruct (N.eqb_spec h 0) as [-> | Hh]; wsimpl.
  2:{ eexists false, h, _, []. split; [reflexivity | ]. wsimpl.
      rewrite Hid, app_nil_r. split_and!; try done.
      symmetry. apply bool_decide_eq_false. tauto. }
  set (full := m_PathPrefix (group w) +:+ it).
  set (chk := if verify_files_exist then not_an_actual_file full w
              else (false, w)).
  assert (Hmissing : chk.1 = verify_files_exist
                             && negb (fs_exists full && fs_is_regular_file full)).
  { subst chk. destruct verify_files_exist; [ | done].
    apply not_an_actual_file_value. }
  assert (Hg : group chk.2 = group w).
  { subst chk. destruct verify_files_exist; [ | done].
    apply not_an_actual_file_group. }
  assert (Ha : openal chk.2 = openal w).
  { subst chk. destruct verify_files_exist; [ | done].
    apply not_an_actual_file_openal. }
  assert (Hc : ∃ cs1, calls chk.2 = calls w ++ cs1 ∧ creations cs1 = []).
  { subst chk. destruct verify_files_exist.
    - rewrite not_an_actual_file_calls. eexists. split; [reflexivity | ].
      by destruct (fs_exists full).
    - exists []. by rewrite app_nil_r. }
  destruct Hc as (cs1 & Hc & Hcs1).
  destruct chk as [missing w1]. cbn [fst snd] in *. subst missing.
  assert (Hfalse : false = bool_decide (0 = 0 ∧ 0 ≠ 0)).
  { symmetry. apply bool_decide_eq_false. intros [_ Hn]. by apply Hn. }
  destruct (verify_files_exist
            && negb (fs_exists full && fs_is_regular_file full)) eqn:Hguard.
  { eexists false, 0, _, cs1. split; [reflexivity | ]. wsimpl.
    rewrite Hg, Hid, Hc, Hcs1. split_and!; try done.
    destruct verify_files_exist; [ | done]. cbn in Hguard |- *.
    apply negb_true_iff in Hguard. by rewrite Hguard. }
  assert (Hpass : negb verify_files_exist
                  || fs_exists full && fs_is_regular_file full = true).
  { destruct verify_files_exist; [ | done]. cbn in Hguard |- *.
    by apply negb_false_iff in Hguard. }
  rewrite Hpass, Ha.
  destruct (alureCreateBufferFromFile it (openal w)) as [nb a].
  destruct (N.eqb_spec nb AL_NONE) as [-> | Hnb].
  - eexists false, 0, _, (cs1 ++ [_; _]).
    split; [reflexivity | ]. wsimpl.
    rewrite Hg, Hid, Hc, creations_app, Hcs1, <- !app_assoc.
    by split_and!.
  - eexists true, nb, _, (cs1 ++ [_]).
    split; [reflexivity | ]. wsimpl.
    rewrite Hg, Hc, creations_app, Hcs1, <- !app_assoc.
    split_and!; try done.
    symmetry. by apply bool_decide_eq_true.
Qed.

Lemma set_Buffers_self g : set_Buffers (m_Buffers g) g = g.
Proof. by destruct g. Qed.

(** The loop of [loadBuffers] over distinct iterators into the map. *)
Lemma loadBuffers_loop_spec (verify_files_exist : bool) (iters : list string) :
  ∀ w (n : Z),
    NoDup iters →
    (∀ k, k ∈ iters → is_Some (m_Buffers (group w) !! k)) →
    ∃ w' cs,
      loadBuffers_loop verify_files_exist iters n w
      = Some (Z.add n (Z.of_nat (length (filter
                 (λ k, getBuffer k (group w) = 0 ∧ getBuffer k (group w') ≠ 0)
                 iters))), w')
      ∧ group w' = set_Buffers (m_Buffers (group w')) (group w)
      ∧ (∀ k, is_Some (m_Buffers (group w') !! k)
              ↔ is_Some (m_Buffers (group w) !! k))
      ∧ (∀ k, k ∉ iters → m_Buffers (group w') !! k = m_Buffers (group w) !! k)
      ∧ (∀ k h, m_Buffers (group w) !! k = Some h → h ≠ 0 →
                m_Buffers (group w') !! k = Some h)
      ∧ calls w' = calls w ++ cs
      ∧ creations cs =
          filter (λ k, load_reaches_backend (group w) verify_files_exist k
                       = true) iters.
Proof.
  induction iters as [ | k rest IH]; intros w n Hnodup Hkeys.
  - exists w, []. cbn. rewrite Z.add_0_r, set_Buffers_self, app_nil_r.
    by split_and!.
  - apply NoDup_cons in Hnodup as [Hk Hnodup].
    destruct (Hkeys k) as [h Hit]; [by left | ].
    destruct (loadBuffer_entry w k h verify_files_exist Hit)
      as (ok & h' & w1 & cs1 & Hload & Hg1 & Hkeep & Hok & Hc1 & Hcs1).
    assert (Hm1 : m_Buffers (group w1) = <[k := h']> (m_Buffers (group w)))
      by (by rewrite Hg1).
    destruct (IH w1 (if ok then (n + 1)%Z else n) Hnodup)
      as (w' & cs2 & Hloop & Hg' & Hdom & Hframe & Hmono & Hc2 & Hcs2).
    { intros k' Hk'. rewrite Hm1. apply lookup_insert_is_Some'.
      right. apply Hkeys. by right. }
    assert (Hrest : ∀ k', k' ∈ rest →
              m_Buffers (group w1) !! k' = m_Buffers (group w) !! k').
    { intros k' Hk'. rewrite Hm1. apply lookup_insert_ne.
      intros ->. by apply Hk. }
    assert (Hk' : m_Buffers (group w') !! k = Some h').
    { rewrite (Hframe k Hk), Hm1. apply lookup_insert_eq. }
    exists w', (cs1 ++ cs2). cbn [loadBuffers_loop]. rewrite Hload, Hloop.
    split_and!.
    + f_equal. f_equal.
      rewrite filter_cons.
      rewrite (getBuffer_lookup _ _ _ Hit), (getBuffer_lookup _ _ _ Hk').
      rewrite (filter_ext_elem
                 (λ k0, getBuffer k0 (group w1) = 0
                        ∧ getBuffer k0 (group w') ≠ 0)
                 (λ k0, getBuffer k0 (group w) = 0
                        ∧ getBuffer k0 (group w') ≠ 0)).
      2:{ intros k0 Hk0. unfold getBuffer. by rewrite (Hrest k0 Hk0). }
      subst ok. destruct (decide (h = 0 ∧ h' ≠ 0)) as [Hd | Hd].
      * rewrite bool_decide_eq_true_2 by done. cbn [length]. lia.
      * rewrite bool_decide_eq_false_2 by done. done.
    + rewrite Hg', Hg1. done.
    + intros k0. rewrite Hdom, Hm1, lookup_insert_is_Some'.
      split; [ | tauto]. intros [-> | H0]; [by eexists | done].
    + intros k0 Hk0. apply not_elem_of_cons in Hk0 as [Hne Hk0].
      rewrite (Hframe k0 Hk0), Hm1. by apply lookup_insert_ne.
    + intros k0 h0 Hk0 Hh0. apply Hmono; [ | done].
      rewrite Hm1. destruct (decide (k = k0)) as [-> | Hne].
      * rewrite lookup_insert_eq. rewrite Hit in Hk0.
        injection Hk0 as ->. f_equal. by apply Hkeep.
      * by rewrite lookup_insert_ne.
    + by rewrite Hc2, Hc1, app_assoc.
    + rewrite creations_app, Hcs1, Hcs2, filter_cons.
      rewrite (filter_ext_elem
                 (λ k0, load_reaches_backend (group w1) verify_files_exist k0
                        = true)
                 (λ k0, load_reaches_backend (group w) verify_files_exist k0
                        = true)).
      2:{ intros k0 Hk0. unfold load_reaches_backend, getBuffer.
          rewrite (Hrest k0 Hk0), Hg1. done. }
      destruct (load_reaches_backend (group w) verify_files_exist k);
        by case_decide.
Qed.

Lemma elem_of_keys (m : gmap string N) k :
  k ∈ (map_to_list m).*1 ↔ is_Some (m !! k).
Proof.
  rewrite list_elem_of_fmap. split.
  - intros ([k' h] & -> & Hin). apply elem_of_map_to_list in Hin. by eexists.
  - intros [h Hk]. exists (k, h). split; [done | ].
    by apply elem_of_map_to_list.
Qed.

Lemma elem_of_traversal (m : gmap string N) k :
  k ∈ traversal m ↔ is_Some (m !! k).
Proof. by rewrite traversal_perm, elem_of_keys. Qed.

Lemma NoDup_traversal (m : gmap string N) : NoDup (traversal m).
Proof. rewrite traversal_perm. apply NoDup_fst_map_to_list. Qed.

(** A traversal of a map enumerates every map with the same keys. *)
Lemma traversal_same_keys (m m' : gmap string N) :
  (∀ k, is_Some (m' !! k) ↔ is_Some (m !! k)) →
  traversal m ≡ₚ (map_to_list m').*1.
Proof.
  intros Hkeys. apply NoDup_Permutation.
  - apply NoDup_traversal.
  - apply NoDup_fst_map_to_list.
  - intros k. by rewrite elem_of_traversal, elem_of_keys, Hkeys.
Qed.

(** C8. For every state, [loadBuffers] sets the loaded flag, runs
    [loadBuffer] on every entry and returns the number of entries that
    this call took from handle 0 to a non-zero handle.  Entries that
    were loaded keep their handle and no key is added or removed.  The
    attempt on an entry with handle 0 reaches the backend unless a guard
    of [loadBuffer] stops it: [alureCreateBufferFromFile] is called, in
    traversal order, for exactly the entries with handle 0 that pass the
    guards, so for each of them when the manager is valid and the
    existence check is off or passes. *)
Theorem loadBuffers_spec w (verify_files_exist : bool) :
  ∃ (n : Z) w' cs,
    loadBuffers verify_files_exist w = Some (n, w')
    ∧ m_BufferGroupLoaded (group w') = true
    ∧ dom (m_Buffers (group w')) = dom (m_Buffers (group w))
    ∧ n = Z.of_nat (size (filter
            (λ kh : string * N,
               m_Buffers (group w) !! kh.1 = Some 0 ∧ kh.2 ≠ 0)
            (m_Buffers (group w'))))
    ∧ (∀ k h, m_Buffers (group w) !! k = Some h → h ≠ 0 →
              m_Buffers (group w') !! k = Some h)
    ∧ calls w' = calls w ++ cs
    ∧ creations cs =
        filter (λ k, load_reaches_backend (group w) verify_files_exist k
                     = true)
               (traversal (m_Buffers (group w)))
    ∧ (∀ k, m_Buffers (group w) !! k = Some 0 →
            m_IsParentAudioManagerValid (group w) = true →
            (verify_files_exist = true →
             fs_exists (m_PathPrefix (group w) +:+ k) = true
             ∧ fs_is_regular_file (m_PathPrefix (group w) +:+ k) = true) →
            k ∈ creations cs).
Proof.
  unfold loadBuffers.
  set (w1 := with_group (set_BufferGroupLoaded true (group w)) w).
  assert (Hm1 : m_Buffers (group w1) = m_Buffers (group w)) by done.
  rewrite Hm1.
  destruct (loadBuffers_loop_spec verify_files_exist
              (traversal (m_Buffers (group w))) w1 0%Z)
    as (w' & cs & Hloop & Hg' & Hkeys & _ & Hmono & Hc & Hcs).
  { apply NoDup_traversal. }
  { intros k Hk. rewrite Hm1. by apply elem_of_traversal. }
  rewrite Hm1 in Hkeys, Hmono.
  assert (Hcs' : creations cs =
            filter (λ k, load_reaches_backend (group w) verify_files_exist k
                         = true)
                   (traversal (m_Buffers (group w)))) by exact Hcs.
  eexists _, w', cs. split; [exact Hloop | ].
  split_and!.
  - by rewrite Hg'.
  - apply set_eq. intros k. by rewrite !elem_of_dom.
  - rewrite Z.add_0_l. f_equal.
    pose proof (count_keys_size
                  (λ k h, m_Buffers (group w) !! k = Some 0 ∧ h ≠ 0)
                  (group w') (traversal (m_Buffers (group w)))
                  (traversal_same_keys _ _ Hkeys)) as Hcount.
    cbn [fst snd] in Hcount. etrans; [ | exact Hcount].
    f_equal. apply filter_ext_elem.
    intros k Hk. apply elem_of_traversal in Hk as [h Hk].
    unfold getBuffer at 1. rewrite Hm1, Hk.
    split; intros [Hz Hnz]; (split; [congruence | done]).
  - done.
  - done.
  - done.
  - intros k Hk Hvalid Hfile. rewrite Hcs'.
    apply list_elem_of_filter. split.
    + unfold load_reaches_backend.
      rewrite Hvalid, (getBuffer_lookup _ _ _ Hk). cbn [andb N.eqb].
      destruct verify_files_exist; [ | done].
      destruct (Hfile eq_refl) as [-> ->]. done.
    + apply elem_of_traversal. by eexists.
Qed.

(** ** unloadBuffers *)

(** One call of [unloadBuffer] on an entry under a valid manager: the
    handle is reset to 0 or kept, the call succeeds exactly when the
    handle is 0 afterwards, and the deletion is requested once when the
    handle was not 0. *)
Lemma unloadBuffer_entry_valid w it h :
  m_IsParentAudioManagerValid (group w) = true →
  m_Buffers (group w) !! it = Some h →
  ∃ ok h' w' cs,
    unloadBuffer it w = Some (ok, w')
    ∧ group w' = set_Buffers (<[it := h']> (m_Buffers (group w))) (group w)
    ∧ (h' = 0 ∨ h' = h)
    ∧ ok = bool_decide (h' = 0)
    ∧ calls w' = calls w ++ cs
    ∧ deletions cs = filter (λ x, x ≠ 0) [h].
Proof.
  intros Hvalid Hit. unfold unloadBuffer. rewrite Hvalid, Hit. wsimpl.
  pose proof (set_Buffers_id _ _ _ Hit) as Hid.
  destruct (N.eqb_spec h 0) as [-> | Hh]; wsimpl.
  - exists true, 0, w, []. rewrite Hid, app_nil_r. by split_and!; auto.
  - rewrite (filter_cons_True (λ x, x ≠ 0) h []) by done.
    destruct (alIsBuffer h (alDeleteBuffers h (openal w))); wsimpl.
    + eexists false, h, _, [_; _; _]. split; [reflexivity | ]. wsimpl.
      rewrite Hid, <- !app_assoc. split_and!; auto.
      symmetry. by apply bool_decide_eq_false.
    + eexists true, 0, _, [_; _]. split; [reflexivity | ]. wsimpl.
      rewrite <- !app_assoc. by split_and!; auto.
Qed.

(** The loop of [unloadBuffers] under a valid manager. *)
Lemma unloadBuffers_loop_valid (iters : list string) :
  ∀ w (n : Z),
    m_IsParentAudioManagerValid (group w) = true →
    NoDup iters →
    (∀ k, k ∈ iters → is_Some (m_Buffers (group w) !! k)) →
    ∃ w' cs,
      unloadBuffers_loop iters n w
      = Some (Z.add n (Z.of_nat (length (filter
                 (λ k, getBuffer k (group w') ≠ 0) iters))), w')
      ∧ group w' = set_Buffers (m_Buffers (group w')) (group w)
      ∧ (∀ k, is_Some (m_Buffers (group w') !! k)
              ↔ is_Some (m_Buffers (group w) !! k))
      ∧ (∀ k, k ∉ iters → m_Buffers (group w') !! k = m_Buffers (group w) !! k)
      ∧ (∀ k h, m_Buffers (group w') !! k = Some h → h ≠ 0 →
                m_Buffers (group w) !! k = Some h)
      ∧ calls w' = calls w ++ cs
      ∧ deletions cs = filter (λ x, x ≠ 0) (handles (group w) iters).
Proof.
  induction iters as [ | k rest IH]; intros w n Hvalid Hnodup Hkeys.
  - exists w, []. cbn. rewrite Z.add_0_r, set_Buffers_self, app_nil_r.
    by split_and!.
  - apply NoDup_cons in Hnodup as [Hk Hnodup].
    destruct (Hkeys k) as [h Hit]; [by left | ].
    destruct (unloadBuffer_entry_valid w k h Hvalid Hit)
      as (ok & h' & w1 & cs1 & Hunload & Hg1 & Hh' & Hok & Hc1 & Hcs1).
    assert (Hm1 : m_Buffers (group w1) = <[k := h']> (m_Buffers (group w)))
      by (by rewrite Hg1).
    assert (Hvalid1 : m_IsParentAudioManagerValid (group w1) = true)
      by (by rewrite Hg1).
    destruct (IH w1 (if ok then n else (n + 1)%Z) Hvalid1 Hnodup)
      as (w' & cs2 & Hloop & Hg' & Hdom & Hframe & Hmono & Hc2 & Hcs2).
    { intros k' Hk'. rewrite Hm1. apply lookup_insert_is_Some'.
      right. apply Hkeys. by right. }
    assert (Hrest : ∀ k', k' ∈ rest →
              m_Buffers (group w1) !! k' = m_Buffers (group w) !! k').
    { intros k' Hk'. rewrite Hm1. apply lookup_insert_ne.
      intros ->. by apply Hk. }
    assert (Hk' : m_Buffers (group w') !! k = Some h').
    { rewrite (Hframe k Hk), Hm1. apply lookup_insert_eq. }
    exists w', (cs1 ++ cs2). cbn [unloadBuffers_loop].
    rewrite Hunload, Hloop.
    split_and!.
    + f_equal. f_equal.
      rewrite filter_cons, (getBuffer_lookup _ _ _ Hk').
      subst ok. destruct (decide (h' ≠ 0)) as [Hd | Hd].
      * rewrite bool_decide_eq_false_2 by done. cbn [length]. lia.
      * rewrite bool_decide_eq_true_2 by (by destruct (decide (h' = 0))).
        done.
    + rewrite Hg', Hg1. done.
    + intros k0. rewrite Hdom, Hm1, lookup_insert_is_Some'.
      split; [ | tauto]. intros [-> | H0]; [by eexists | done].
    + intros k0 Hk0. apply not_elem_of_cons in Hk0 as [Hne Hk0].
      rewrite (Hframe k0 Hk0), Hm1. by apply lookup_insert_ne.
    + intros k0 h0 Hk0 Hh0. apply Hmono in Hk0; [ | done].
      rewrite Hm1 in Hk0. destruct (decide (k = k0)) as [-> | Hne].
      * rewrite lookup_insert_eq in Hk0. injection Hk0 as ->.
        destruct Hh' as [-> | ->]; done.
      * by rewrite lookup_insert_ne in Hk0.
    + by rewrite Hc2, Hc1, app_assoc.
    + rewrite deletions_app, Hcs1, Hcs2. unfold handles.
      rewrite fmap_cons, (getBuffer_lookup _ _ _ Hit).
      rewrite !filter_cons, filter_nil.
      assert (Heq : (λ k0, getBuffer k0 (group w1)) <$> rest
                    = (λ k0, getBuffer k0 (group w)) <$> rest).
      { apply list_fmap_ext. intros i k0 Hk0. unfold getBuffer.
        rewrite Hrest; [done | ]. by eapply list_elem_of_lookup_2. }
      rewrite Heq. by destruct (decide (h ≠ 0)).
Qed.

(** Under an invalidated manager every [unloadBuffer] is refused. *)
Lemma unloadBuffers_loop_invalid (iters : list string) :
  ∀ w (n : Z),
    m_IsParentAudioManagerValid (group w) = false →
    unloadBuffers_loop iters n w
    = Some (Z.add n (Z.of_nat (length iters)), w).
Proof.
  induction iters as [ | k rest IH]; intros w n Hinvalid.
  - cbn. by rewrite Z.add_0_r.
  - cbn [unloadBuffers_loop]. unfold unloadBuffer at 1.
    rewrite Hinvalid. wsimpl. rewrite (IH _ _ Hinvalid).
    f_equal. f_equal. cbn [length]. lia.
Qed.

(** C7 (amended statement). For every state, [unloadBuffers] clears the loaded
    flag and runs [unloadBuffer] on every entry, keeping the set of
    keys.  When the manager is valid it requests the deletion of every
    non-zero handle, in traversal order, a handle is either reset to 0 or
    kept, and the result is exactly the number of entries whose handle is
    still non-zero afterwards.  When the manager is invalidated every
    attempt is refused: no call is made, no handle changes and the
    result is the total number of entries. *)
Theorem unloadBuffers_spec w :
  ∃ (n : Z) w' cs,
    unloadBuffers w = Some (n, w')
    ∧ m_BufferGroupLoaded (group w') = false
    ∧ dom (m_Buffers (group w')) = dom (m_Buffers (group w))
    ∧ calls w' = calls w ++ cs
    ∧ (m_IsParentAudioManagerValid (group w) = true →
       n = Z.of_nat (loaded_count (m_Buffers (group w')))
       ∧ deletions cs =
           filter (λ x, x ≠ 0)
                  (handles (group w) (traversal (m_Buffers (group w))))
       ∧ (∀ k h, m_Buffers (group w') !! k = Some h → h ≠ 0 →
                 m_Buffers (group w) !! k = Some h))
    ∧ (m_IsParentAudioManagerValid (group w) = false →
       n = Z.of_nat (size (m_Buffers (group w)))
       ∧ m_Buffers (group w') = m_Buffers (group w)
       ∧ cs = []).
Proof.
  unfold unloadBuffers.
  set (w1 := with_group (set_BufferGroupLoaded false (group w)) w).
  assert (Hm1 : m_Buffers (group w1) = m_Buffers (group w)) by done.
  rewrite Hm1.
  destruct (m_IsParentAudioManagerValid (group w)) eqn:Hvalid.
  - destruct (unloadBuffers_loop_valid
                (traversal (m_Buffers (group w))) w1 0%Z)
      as (w' & cs & Hloop & Hg' & Hkeys & _ & Hmono & Hc & Hcs).
    { done. }
    { apply NoDup_traversal. }
    { intros k Hk. rewrite Hm1. by apply elem_of_traversal. }
    rewrite Hm1 in Hkeys, Hmono.
    eexists _, w', cs. split; [exact Hloop | ].
    split_and!.
    + by rewrite Hg'.
    + apply set_eq. intros k. by rewrite !elem_of_dom.
    + done.
    + intros _. split_and!; [ | done | done].
      rewrite Z.add_0_l. f_equal. unfold loaded_count.
      pose proof (count_keys_size (λ _ h, h ≠ 0)
                    (group w') (traversal (m_Buffers (group w)))
                    (traversal_same_keys _ _ Hkeys)) as Hcount.
      cbn [fst snd] in Hcount. exact Hcount.
    + done.
  - rewrite (unloadBuffers_loop_invalid _ w1 0%Z) by done.
    eexists _, w1, []. split; [reflexivity | ].
    split_and!; try done.
    + subst w1. wsimpl. by rewrite app_nil_r.
    + intros _. split_and!; try done.
      rewrite Z.add_0_l. f_equal.
      by rewrite traversal_perm, length_fmap, length_map_to_list.
Qed.

(** ** addBuffer on a path that is not registered *)

(** C6 (amended statement). For every path [p] that is not registered,
    [addBuffer p] is defined and:
    - returns false and inserts nothing when the manager is invalidated
      or the prefixed path is not an existing regular file;
    - otherwise inserts [p] with handle 0 and, when the group is not in
      the loaded state, returns true;
    - otherwise, the group being in the loaded state, calls [loadBuffer]
      on the new entry at once and returns its result: the backend is
      asked to create a buffer for [p]; when it returns a non-zero name
      the entry holds that name and the call returns true, when it
      returns [AL_NONE] the entry stays registered with handle 0 and the
      call returns false. *)
Theorem addBuffer_unregistered w p :
  m_Buffers (group w) !! p = None →
  ∃ (ok : bool) w' cs,
    addBuffer p w = Some (ok, w')
    ∧ calls w' = calls w ++ cs
    ∧ (m_IsParentAudioManagerValid (group w) = false
       ∨ fs_exists (m_PathPrefix (group w) +:+ p) = false
       ∨ fs_is_regular_file (m_PathPrefix (group w) +:+ p) = false →
       ok = false ∧ group w' = group w ∧ openal w' = openal w)
    ∧ (m_IsParentAudioManagerValid (group w) = true →
       fs_exists (m_PathPrefix (group w) +:+ p) = true →
       fs_is_regular_file (m_PathPrefix (group w) +:+ p) = true →
       (m_BufferGroupLoaded (group w) = false →
        ok = true
        ∧ m_Buffers (group w') = <[p := 0]> (m_Buffers (group w))
        ∧ openal w' = openal w
        ∧ creations cs = [])
       ∧ (m_BufferGroupLoaded (group w) = true →
          ok = negb ((alureCreateBufferFromFile p (openal w)).1 =? AL_NONE)
          ∧ m_Buffers (group w') =
              <[p := (alureCreateBufferFromFile p (openal w)).1]>
                (m_Buffers (group w))
          ∧ openal w' = (alureCreateBufferFromFile p (openal w)).2
          ∧ creations cs = [p])).
Proof.
  intros Hnew. unfold addBuffer.
  destruct (m_IsParentAudioManagerValid (group w)) eqn:Hvalid; wsimpl.
  2:{ exists false, w, []. rewrite app_nil_r. split_and!; try done. }
  unfold not_an_actual_file.
  set (full := m_PathPrefix (group w) +:+ p).
  destruct (fs_exists full) eqn:Hex; wsimpl.
  2:{ eexists false, _, [_]. split; [reflexivity | ]. wsimpl.
      split_and!; try done. }
  destruct (fs_is_regular_file full) eqn:Hreg; wsimpl.
  2:{ eexists false, _, [_; _]. split; [reflexivity | ]. wsimpl.
      rewrite <- app_assoc. split_and!; try done. }
  rewrite Hnew.
  destruct (m_BufferGroupLoaded (group w)) eqn:Hloaded.
  2:{ eexists true, _, [_; _]. split; [reflexivity | ]. wsimpl.
      rewrite <- app_assoc. split_and!; try done.
      intros [? | [? | ?]]; done. }
  unfold loadBuffer. wsimpl. rewrite Hvalid, lookup_insert_eq.
  cbn [negb N.eqb]. fold full.
  set (chk := if loadBuffer_default_verify
              then not_an_actual_file full _ else _).
  assert (Hchk : ∃ cs1,
            chk.1 = false
            ∧ group chk.2
              = set_Buffers (<[p := 0]> (m_Buffers (group w))) (group w)
            ∧ openal chk.2 = openal w
            ∧ calls chk.2 = calls w ++ cs1 ∧ creations cs1 = []).
  { subst chk. destruct loadBuffer_default_verify.
    - unfold not_an_actual_file. rewrite Hex, Hreg. wsimpl.
      eexists [_; _; _; _]. rewrite <- !app_assoc. by split_and!.
    - wsimpl. eexists [_; _]. rewrite <- !app_assoc. by split_and!. }
  destruct Hchk as (cs1 & Hmissing & Hg & Ha & Hc & Hcs1).
  destruct chk as [missing w1]. cbn [fst snd] in *. subst missing.
  rewrite Ha.
  destruct (alureCreateBufferFromFile p (openal w)) as [nb a]. cbn [fst snd].
  destruct (nb =? AL_NONE) eqn:Hnb.
  - apply N.eqb_eq in Hnb as ->.
    eexists false, _, (cs1 ++ [_; _]). split; [reflexivity | ]. wsimpl.
    rewrite Hg, Hc, creations_app, Hcs1, <- !app_assoc. wsimpl.
    split_and!; try done. intros [? | [? | ?]]; done.
  - eexists true, _, (cs1 ++ [_]). split; [reflexivity | ]. wsimpl.
    rewrite Hg, Hc, creations_app, Hcs1, <- !app_assoc. wsimpl.
    rewrite insert_insert_eq.
    split_and!; try done. intros [? | [? | ?]]; done.
Qed.

End Properties.

(** * The statements on the test double *)

Section Runs.
Import Mock.

(** ** Evaluations *)

Example addBuffer_prefixed_then_unprefixed :
  (addBuffer "hit.wav" sfx_empty_loaded)
  = Some (false,
          mkWorld (mkGroup true "fx" "sfx/" {[ "hit.wav" := 0 ]} true) fresh
                  [call_exists "sfx/hit.wav";
                   call_is_regular_file "sfx/hit.wav";
                   call_alureCreateBufferFromFile "hit.wav";
                   call_alureGetErrorString]
                  [mkLog (msg_load_error "fx" "hit.wav") LML_CRITICAL false]).
Proof. vm_compute. reflexivity. Qed.

Example addBuffer_not_decodable :
  (addBuffer "readme.txt" root_empty_loaded)
  = Some (false,
          mkWorld (mkGroup true "fx" "" {[ "readme.txt" := 0 ]} true) fresh
                  [call_exists "readme.txt"; call_is_regular_file "readme.txt";
                   call_alureCreateBufferFromFile "readme.txt";
                   call_alureGetErrorString]
                  [mkLog (msg_load_error "fx" "readme.txt") LML_CRITICAL
                         false]).
Proof. vm_compute. reflexivity. Qed.

Example addBuffer_loads_at_once :
  (addBuffer "boom.wav" root_empty_loaded)
  = Some (true,
          mkWorld (mkGroup true "fx" "" {[ "boom.wav" := 1 ]} true)
                  (mkAl [1] [] [] 2)
                  [call_exists "boom.wav"; call_is_regular_file "boom.wav";
                   call_alureCreateBufferFromFile "boom.wav"]
                  []).
Proof. vm_compute. reflexivity. Qed.

Example unloadBuffers_playing :
  ∃ w', unloadBuffers playing = Some (1%Z, w')
        ∧ m_Buffers (group w')
          = {[ "boom.wav" := 3; "sfx/hit.wav" := 0; "sfx/miss.wav" := 0 ]}
        ∧ deletions (calls w') = [4; 3].
Proof. eexists. split_and!; vm_compute; reflexivity. Qed.

Example unloadBuffers_orphaned :
  unloadBuffers orphaned
  = Some (2%Z, mkWorld (mkGroup false "fx" "" {[ "boom.wav" := 3;
                                               "sfx/miss.wav" := 0 ]} false)
                       (mkAl [3] [] [] 4) [] []).
Proof. vm_compute. reflexivity. Qed.

Example loadBuffers_playing :
  ∃ w', loadBuffers true playing = Some (1%Z, w')
        ∧ m_Buffers (group w')
          = {[ "boom.wav" := 3; "sfx/hit.wav" := 4; "sfx/miss.wav" := 5 ]}
        ∧ creations (calls w') = ["sfx/miss.wav"].
Proof. eexists. split_and!; vm_compute; reflexivity. Qed.

(** ** Instances of the theorems *)

Lemma addBuffer_registered_witness :
  m_Buffers (group sfx_unloaded) !! "hit.wav" = Some 0
  ∧ ∃ w', addBuffer "hit.wav" sfx_unloaded = Some (false, w')
          ∧ m_Buffers (group w') = m_Buffers (group sfx_unloaded)
          ∧ group w' = group sfx_unloaded
          ∧ openal w' = openal sfx_unloaded.
Proof.
  split; [vm_compute; reflexivity | ].
  apply (addBuffer_registered sfx_unloaded "hit.wav" 0).
  vm_compute; reflexivity.
Defined.

Lemma loadBuffer_already_loaded_witness :
  m_Buffers (group playing) !! "boom.wav" = Some 3
  ∧ 3 ≠ 0
  ∧ ∃ w', loadBuffer "boom.wav" true playing = Some (false, w')
          ∧ group w' = group playing
          ∧ m_Buffers (group w') !! "boom.wav" = Some 3
          ∧ m_BufferGroupLoaded (group w') = m_BufferGroupLoaded (group playing)
          ∧ openal w' = openal playing
          ∧ calls w' = calls playing.
Proof.
  split; [vm_compute; reflexivity | ]. split; [lia | ].
  apply (loadBuffer_already_loaded playing "boom.wav" 3 true);
    [vm_compute; reflexivity | lia].
Defined.

Lemma unloadBuffer_still_in_use_witness :
  m_Buffers (group playing) !! "boom.wav" = Some 3
  ∧ 3 ≠ 0
  ∧ alIsBuffer 3 (alDeleteBuffers 3 (openal playing)) = true
  ∧ ∃ w', unloadBuffer "boom.wav" playing = Some (false, w')
          ∧ m_Buffers (group w') !! "boom.wav" = Some 3
          ∧ group w' = group playing
          ∧ (m_IsParentAudioManagerValid (group playing) = true →
             calls w' = calls playing
                        ++ [call_alDeleteBuffers 3; call_alIsBuffer 3;
                            call_alureGetErrorString]).
Proof.
  split; [vm_compute; reflexivity | ]. split; [lia | ].
  split; [vm_compute; reflexivity | ].
  apply (unloadBuffer_still_in_use playing "boom.wav" 3);
    [vm_compute; reflexivity | lia | vm_compute; reflexivity].
Defined.

Lemma removeBuffer_spec_witness :
  (∃ w', removeBuffer "sfx/hit.wav" playing = Some w'
         ∧ calls w' = [call_purgeBufferFromSources 4; call_alDeleteBuffers 4;
                       call_alIsBuffer 4]
         ∧ m_Buffers (group w')
           = delete "sfx/hit.wav" (m_Buffers (group playing))
         ∧ getBuffer "sfx/hit.wav" (group w') = 0)
  ∧ removeBuffer "boom.wav" orphaned = Some orphaned
  ∧ removeBuffer "absent.wav" playing = Some playing.
Proof.
  split_and!.
  - apply (proj1 (removeBuffer_spec playing "sfx/hit.wav") 4);
      vm_compute; reflexivity.
  - apply (proj2 (removeBuffer_spec orphaned "boom.wav")).
    left. vm_compute; reflexivity.
  - apply (proj2 (removeBuffer_spec playing "absent.wav")).
    right. vm_compute; reflexivity.
Defined.

Lemma loadBuffer_backend_failure_witness :
  m_Buffers (group sfx_unloaded) !! "hit.wav" = Some 0
  ∧ (alureCreateBufferFromFile "hit.wav" (openal sfx_unloaded)).1 = AL_NONE
  ∧ ∃ w', loadBuffer "hit.wav" true sfx_unloaded = Some (false, w')
          ∧ m_Buffers (group w') !! "hit.wav" = Some 0
          ∧ group w' = group sfx_unloaded.
Proof.
  split; [vm_compute; reflexivity | ]. split; [vm_compute; reflexivity | ].
  apply (loadBuffer_backend_failure sfx_unloaded "hit.wav" true);
    vm_compute; reflexivity.
Defined.

Lemma removeBuffer_erases_after_failed_unload_witness :
  m_IsParentAudioManagerValid (group playing) = true
  ∧ m_Buffers (group playing) !! "boom.wav" = Some 3
  ∧ 3 ≠ 0
  ∧ alIsBuffer 3 (alDeleteBuffers 3
                    (purgeBufferFromSources 3 (openal playing))) = true
  ∧ ∃ w1 w',
      unloadBuffer "boom.wav"
        (record_call (call_purgeBufferFromSources 3)
           (with_openal (purgeBufferFromSources 3 (openal playing)) playing))
        = Some (false, w1)
      ∧ removeBuffer "boom.wav" playing = Some w'
      ∧ m_Buffers (group w') = delete "boom.wav" (m_Buffers (group playing))
      ∧ m_Buffers (group w') !! "boom.wav" = None
      ∧ alIsBuffer 3 (openal w') = true.
Proof.
  split; [vm_compute; reflexivity | ]. split; [vm_compute; reflexivity | ].
  split; [lia | ]. split; [vm_compute; reflexivity | ].
  apply (removeBuffer_erases_after_failed_unload playing "boom.wav" 3);
    [vm_compute; reflexivity | vm_compute; reflexivity | lia
    | vm_compute; reflexivity].
Defined.

Lemma loadBuffer_checked_and_loaded_paths_witness :
  m_IsParentAudioManagerValid (group sfx_unloaded) = true
  ∧ m_Buffers (group sfx_unloaded) !! "hit.wav" = Some 0
  ∧ fs_exists "sfx/hit.wav" = true
  ∧ fs_is_regular_file "sfx/hit.wav" = true
  ∧ (∃ ok w',
       loadBuffer "hit.wav" true sfx_unloaded = Some (ok, w')
       ∧ calls w' =
           [call_exists "sfx/hit.wav"; call_is_regular_file "sfx/hit.wav"]
           ++ call_alureCreateBufferFromFile "hit.wav" ::
              (if ok then [] else [call_alureGetErrorString]))
  ∧ "sfx/hit.wav" ≠ "hit.wav".
Proof.
  split; [vm_compute; reflexivity | ]. split; [vm_compute; reflexivity | ].
  split; [vm_compute; reflexivity | ]. split; [vm_compute; reflexivity | ].
  destruct (loadBuffer_checked_and_loaded_paths sfx_unloaded "hit.wav" true)
    as (Hload & _ & Hneq).
  - vm_compute; reflexivity.
  - vm_compute; reflexivity.
  - intros _. split; vm_compute; reflexivity.
  - split; [exact Hload | ]. apply Hneq. discriminate.
Defined.

Lemma addBuffer_unregistered_witness :
  m_Buffers (group root_empty_loaded) !! "boom.wav" = None
  ∧ ∃ w', addBuffer "boom.wav" root_empty_loaded = Some (true, w')
          ∧ m_Buffers (group w') = {[ "boom.wav" := 1 ]}.
Proof.
  split; [vm_compute; reflexivity | ].
  destruct (addBuffer_unregistered root_empty_loaded "boom.wav")
    as (ok & w' & cs & Hadd & _ & _ & Hin); [vm_compute; reflexivity | ].
  destruct Hin as [_ Hloaded]; [vm_compute; reflexivity .. | ].
  destruct Hloaded as (Hok & Hm & _); [vm_compute; reflexivity | ].
  exists w'. rewrite Hadd, Hok, Hm. split; vm_compute; reflexivity.
Defined.

Lemma unloadBuffers_spec_witness :
  m_IsParentAudioManagerValid (group playing) = true
  ∧ ∃ (n : Z) w',
      unloadBuffers playing = Some (n, w')
      ∧ m_BufferGroupLoaded (group w') = false
      ∧ n = Z.of_nat (loaded_count (m_Buffers (group w'))).
Proof.
  split; [vm_compute; reflexivity | ].
  destruct (unloadBuffers_spec playing)
    as (n & w' & cs & Hrun & Hflag & _ & _ & Hvalid & _).
  destruct Hvalid as (Hn & _); [vm_compute; reflexivity | ].
  exists n, w'. by split_and!.
Defined.

(** ** Inputs on which the unconditional readings fail *)

(** C6, counterexample. The group is in the loaded state and
    [readme.txt] is an existing regular file that is not registered, so
    it passes the guards and is inserted with handle 0; the backend
    cannot decode it and creates no buffer, and [addBuffer] returns
    false. *)
Lemma addBuffer_admitted_succeeds_counterexample :
  ¬ addBuffer_admitted_succeeds root_empty_loaded "readme.txt".
Proof.
  intros Hclaim.
  destruct Hclaim as (w' & Hadd & _); try (vm_compute; reflexivity).
  rewrite addBuffer_not_decodable in Hadd. discriminate Hadd.
Qed.

(** C7, counterexample. Under an invalidated manager [unloadBuffers]
    returns 2, the number of entries, while one entry is loaded. *)
Lemma unloadBuffers_counts_loaded_counterexample :
  ¬ unloadBuffers_counts_loaded orphaned.
Proof.
  intros (n & w' & Hrun & _ & Hn).
  rewrite unloadBuffers_orphaned in Hrun.
  injection Hrun as <- <-. vm_compute in Hn. discriminate Hn.
Qed.

End Runs.

(** * The registry as a whole *)

Section Registry.
Context `{Env : Environment}.
Implicit Types (w : World) (g : AudioBufferGroup) (h : ALuint).
Implicit Types (p it : string).

Ltac rsimpl :=
  cbn [group openal calls log with_group with_openal record_call fLogMessage
       assign_second set_Buffers set_BufferGroupLoaded
       m_IsParentAudioManagerValid m_GroupName m_PathPrefix m_Buffers
       m_BufferGroupLoaded negb andb orb fst snd].

(** ** One call of addBuffer, in every state *)

(** Either nothing is inserted and the call fails, or the path is fresh
    and admitted and exactly the entry for it is inserted. *)
Lemma addBuffer_step w p :
  ∃ (ok : bool) w',
    addBuffer p w = Some (ok, w')
    ∧ group w' = set_Buffers (m_Buffers (group w')) (group w)
    ∧ ((m_Buffers (group w') = m_Buffers (group w)
        ∧ ok = false
        ∧ (is_Some (m_Buffers (group w) !! p) ∨ admitted (group w) p = false))
       ∨ (m_Buffers (group w) !! p = None
          ∧ admitted (group w) p = true
          ∧ ∃ h', m_Buffers (group w') = <[p := h']> (m_Buffers (group w))
                  ∧ ok = negb (m_BufferGroupLoaded (group w))
                         || negb (h' =? 0)
                  ∧ (m_BufferGroupLoaded (group w) = false → h' = 0))).
Proof.
  unfold addBuffer, admitted.
  destruct (m_IsParentAudioManagerValid (group w)) eqn:Hvalid; rsimpl.
  2:{ exists false, w. rewrite set_Buffers_self. split_and!; try done.
      left. split_and!; try done. by right. }
  unfold not_an_actual_file.
  set (full := m_PathPrefix (group w) +:+ p).
  destruct (fs_exists full) eqn:Hex; rsimpl.
  2:{ eexists false, _. split; [reflexivity | ]. rsimpl.
      rewrite set_Buffers_self. split; [done | ]. left. split_and!; try done.
      by right. }
  destruct (fs_is_regular_file full) eqn:Hreg; rsimpl.
  2:{ eexists false, _. split; [reflexivity | ]. rsimpl.
      rewrite set_Buffers_self. split; [done | ]. left. split_and!; try done.
      by right. }
  destruct (m_Buffers (group w) !! p) as [h | ] eqn:Hp.
  { eexists false, _. split; [reflexivity | ]. rsimpl.
    rewrite set_Buffers_self. split; [done | ]. left. split_and!; try done.
    left. by eexists. }
  destruct (m_BufferGroupLoaded (group w)) eqn:Hloaded; rsimpl.
  2:{ eexists true, _. split; [reflexivity | ]. rsimpl.
      split; [done | ]. right. split_and!; try done. by exists 0. }
  set (w2 := assign_second p 0 _).
  assert (Hp2 : m_Buffers (group w2) !! p = Some 0)
    by (subst w2; rsimpl; apply lookup_insert_eq).
  destruct (loadBuffer_entry w2 p 0 loadBuffer_default_verify Hp2)
    as (ok & h' & w' & cs & Hload & Hg' & _ & Hok & _ & _).
  exists ok, w'. split; [exact Hload | ].
  rewrite Hg'. subst w2. rsimpl. rewrite insert_insert_eq.
  split; [done | ]. right. split_and!; try done.
  exists h'. split_and!; try done.
  subst ok. destruct (N.eqb_spec h' 0) as [-> | Hh']; rsimpl.
  - apply bool_decide_eq_false. tauto.
  - by apply bool_decide_eq_true.
Qed.

(** X1. In every state and for every path, [addBuffer] is defined; it
    never changes or removes an entry that was registered, inserts no
    key other than the path it is given, and leaves the manager flag,
    the name, the prefix and the loaded flag alone. *)
Theorem addBuffer_frame w p :
  ∃ (ok : bool) w',
    addBuffer p w = Some (ok, w')
    ∧ group w' = set_Buffers (m_Buffers (group w')) (group w)
    ∧ (∀ k h, m_Buffers (group w) !! k = Some h →
              m_Buffers (group w') !! k = Some h)
    ∧ (∀ k, k ≠ p → m_Buffers (group w') !! k = m_Buffers (group w) !! k).
Proof.
  destruct (addBuffer_step w p) as (ok & w' & Hadd & Hg & Hcases).
  exists ok, w'. split; [done | ]. split; [done | ].
  destruct Hcases as [(Hm & _ & _) | (Hnew & _ & h' & Hm & _)]; rewrite Hm.
  - done.
  - split.
    + intros k h Hk. rewrite lookup_insert_ne; [done | ]. congruence.
    + intros k Hk. by rewrite lookup_insert_ne.
Qed.

(** X2. If [addBuffer] returns true, the path was not registered, the
    manager is valid and the prefixed path is an existing regular file;
    afterwards the path is registered, with handle 0 when the group is
    not in the loaded state and with a non-zero handle when it is, and
    the registry has one entry more. *)
Theorem addBuffer_true w p w' :
  addBuffer p w = Some (true, w') →
  m_Buffers (group w) !! p = None
  ∧ admitted (group w) p = true
  ∧ is_Some (m_Buffers (group w') !! p)
  ∧ (if m_BufferGroupLoaded (group w)
     then getBuffer p (group w') ≠ 0
     else m_Buffers (group w') !! p = Some 0)
  ∧ size (m_Buffers (group w')) = S (size (m_Buffers (group w))).
Proof.
  intros Hadd.
  destruct (addBuffer_step w p) as (ok & w1 & Hadd1 & _ & Hcases).
  rewrite Hadd in Hadd1. injection Hadd1 as <- <-.
  destruct Hcases as [(_ & Hok & _) | (Hnew & Hadm & h' & Hm & Hok & Hzero)];
    [done | ].
  rewrite Hm, lookup_insert_eq.
  split_and!; try done.
  - unfold getBuffer. rewrite Hm, lookup_insert_eq.
    destruct (m_BufferGroupLoaded (group w)).
    + cbn in Hok. intros ->. done.
    + by rewrite Hzero.
  - by apply map_size_insert_None.
Qed.

(** ** addBuffers *)

(** The loop of [addBuffers] from any counter value. *)
Lemma addBuffers_loop_spec (file_paths : list string) :
  ∀ w (n : Z),
    ∃ (n' : Z) w',
      addBuffers_loop file_paths n w = Some (n', w')
      ∧ group w' = set_Buffers (m_Buffers (group w')) (group w)
      ∧ (∀ k h, m_Buffers (group w) !! k = Some h →
                m_Buffers (group w') !! k = Some h)
      ∧ (∀ k, is_Some (m_Buffers (group w') !! k)
              ↔ is_Some (m_Buffers (group w) !! k)
                ∨ (k ∈ file_paths ∧ admitted (group w) k = true))
      ∧ (n ≤ n')%Z
      ∧ (n' - n ≤ Z.of_nat (size (m_Buffers (group w')))
                  - Z.of_nat (size (m_Buffers (group w))))%Z
      ∧ (m_BufferGroupLoaded (group w) = false →
         (n' - n = Z.of_nat (size (m_Buffers (group w')))
                   - Z.of_nat (size (m_Buffers (group w))))%Z
         ∧ ∀ k, m_Buffers (group w) !! k = None →
                is_Some (m_Buffers (group w') !! k) →
                m_Buffers (group w') !! k = Some 0).
Proof.
  induction file_paths as [ | p rest IH]; intros w n.
  - exists n, w. cbn [addBuffers_loop]. rewrite set_Buffers_self.
    split_and!; try done; try lia.
    + intros k. split; [by left | ]. intros [Hk | [Hk _]]; [done | ].
      by apply elem_of_nil in Hk.
    + intros _. split; [lia | ]. intros k Hnone [h Hk]. congruence.
  - destruct (addBuffer_step w p) as (ok & w1 & Hadd & Hg1 & Hcases).
    destruct (IH w1 (if ok then (n + 1)%Z else n))
      as (n' & w' & Hloop & Hg' & Hkeep & Hkeys & Hle & Hgrow & Hexact).
    exists n', w'. cbn [addBuffers_loop]. rewrite Hadd, Hloop.
    assert (Hadm : ∀ k, admitted (group w1) k = admitted (group w) k)
      by (intros k; by rewrite Hg1).
    assert (Hflag : m_BufferGroupLoaded (group w1)
                    = m_BufferGroupLoaded (group w)) by (by rewrite Hg1).
    rewrite Hflag in Hexact.
    split; [done | ]. split; [by rewrite Hg', Hg1 | ].
    destruct Hcases as [(Hm & -> & Hwhy) | (Hnew & Hadmp & h' & Hm & Hok & Hz)].
    + rewrite Hm in *. split_and!; try done.
      intros k. rewrite Hkeys, Hadm, elem_of_cons. split.
      * intros [Hk | [Hk Ha]]; [by left | right; by auto].
      * intros [Hk | [[-> | Hk] Ha]]; [by left | | right; by auto].
        left. destruct Hwhy as [Hreg | Hno]; [done | congruence].
    + assert (Hsize : size (m_Buffers (group w1))
                      = S (size (m_Buffers (group w))))
        by (rewrite Hm; by apply map_size_insert_None).
      split_and!.
      * intros k h Hk. apply Hkeep. rewrite Hm, lookup_insert_ne; [done | ].
        congruence.
      * intros k. rewrite Hkeys, Hadm, Hm, lookup_insert_is_Some',
          elem_of_cons. split.
        -- intros [[-> | Hk] | [Hk Ha]]; [right | left | right]; by auto.
        -- intros [Hk | [[-> | Hk] Ha]];
             [left; by right | left; by left | right; by auto].
      * destruct ok; lia.
      * destruct ok; lia.
      * intros Hunl. destruct (Hexact Hunl) as [Hcount Hzero].
        rewrite Hunl in Hok. cbn in Hok. subst ok.
        split; [lia | ].
        intros k Hk Hsome. destruct (decide (k = p)) as [-> | Hne].
        -- apply Hkeep. rewrite Hm, (Hz Hunl). apply lookup_insert_eq.
        -- apply Hzero; [ | done]. rewrite Hm. by rewrite lookup_insert_ne.
Qed.

(** X3. In every state [addBuffers] is defined; afterwards the keys are
    the old keys together with the paths of the vector that pass the
    guards of [addBuffer] (valid manager, prefixed path an existing
    regular file), and every entry that was registered keeps its
    handle. *)
Theorem addBuffers_keys w (file_paths : list string) :
  ∃ (n : Z) w',
    addBuffers file_paths w = Some (n, w')
    ∧ (∀ k h, m_Buffers (group w) !! k = Some h →
              m_Buffers (group w') !! k = Some h)
    ∧ (∀ k, is_Some (m_Buffers (group w') !! k)
            ↔ is_Some (m_Buffers (group w) !! k)
              ∨ (k ∈ file_paths ∧ admitted (group w) k = true)).
Proof.
  destruct (addBuffers_loop_spec file_paths w 0%Z)
    as (n & w' & Hrun & _ & Hkeep & Hkeys & _).
  by exists n, w'.
Qed.

(** X4. The number [addBuffers] returns is never negative and never
    more than the number of entries the call has added; when the group is
    not in the loaded state it is exactly that number, and every added
    entry has handle 0.  (In the loaded state a path whose load fails is
    inserted and not counted.) *)
Theorem addBuffers_count w (file_paths : list string) :
  ∃ (n : Z) w',
    addBuffers file_paths w = Some (n, w')
    ∧ (0 ≤ n)%Z
    ∧ (n ≤ Z.of_nat (size (m_Buffers (group w')))
           - Z.of_nat (size (m_Buffers (group w))))%Z
    ∧ (m_BufferGroupLoaded (group w) = false →
       (n = Z.of_nat (size (m_Buffers (group w')))
            - Z.of_nat (size (m_Buffers (group w))))%Z
       ∧ ∀ k, m_Buffers (group w) !! k = None →
              is_Some (m_Buffers (group w') !! k) →
              m_Buffers (group w') !! k = Some 0).
Proof.
  destruct (addBuffers_loop_spec file_paths w 0%Z)
    as (n & w' & Hrun & _ & _ & _ & Hle & Hgrow & Hexact).
  exists n, w'. split_and!; [done | lia | lia | ].
  intros Hunl. destruct (Hexact Hunl) as [Hn Hzero]. split; [lia | done].
Qed.

(** X5. If every registered key names, under the prefix, an existing
    regular file, the same holds after [addBuffers]: a path enters the
    registry only through the file check. *)
Theorem addBuffers_keeps_files w (file_paths : list string) :
  (∀ k, is_Some (m_Buffers (group w) !! k) →
        fs_exists (m_PathPrefix (group w) +:+ k) = true
        ∧ fs_is_regular_file (m_PathPrefix (group w) +:+ k) = true) →
  ∃ (n : Z) w',
    addBuffers file_paths w = Some (n, w')
    ∧ ∀ k, is_Some (m_Buffers (group w') !! k) →
           fs_exists (m_PathPrefix (group w') +:+ k) = true
           ∧ fs_is_regular_file (m_PathPrefix (group w') +:+ k) = true.
Proof.
  intros Hinv.
  destruct (addBuffers_loop_spec file_paths w 0%Z)
    as (n & w' & Hrun & Hg & _ & Hkeys & _).
  exists n, w'. split; [done | ].
  intros k Hk. rewrite Hg. rsimpl.
  apply Hkeys in Hk as [Hk | [_ Hadm]]; [by apply Hinv | ].
  unfold admitted in Hadm.
  apply andb_true_iff in Hadm as [Hadm Hreg].
  by apply andb_true_iff in Hadm as [_ Hex].
Qed.

(** ** removeBuffer and removeBuffers *)

(** [removeBuffer] is defined in every state; under a valid manager the
    map loses the key, under an invalidated one nothing changes. *)
Lemma removeBuffer_step w p :
  ∃ w', removeBuffer p w = Some w'
        ∧ group w'
          = set_Buffers (if m_IsParentAudioManagerValid (group w)
                         then delete p (m_Buffers (group w))
                         else m_Buffers (group w)) (group w)
        ∧ (m_IsParentAudioManagerValid (group w) = false → w' = w).
Proof.
  unfold removeBuffer.
  destruct (m_IsParentAudioManagerValid (group w)) eqn:Hvalid.
  2:{ exists w. by rewrite set_Buffers_self. }
  destruct (m_Buffers (group w) !! p) as [h | ] eqn:Hp.
  2:{ exists w. rewrite delete_id by done. by rewrite set_Buffers_self. }
  set (w1 := record_call _ _).
  assert (Hp1 : m_Buffers (group w1) !! p = Some h) by done.
  assert (Hvalid1 : m_IsParentAudioManagerValid (group w1) = true) by done.
  destruct (unloadBuffer_entry_valid w1 p h Hvalid1 Hp1)
    as (ok & h' & w2 & cs & Hunload & Hg2 & _).
  rewrite Hunload. eexists. split; [reflexivity | ].
  rsimpl. rewrite Hg2. subst w1. rsimpl.
  by rewrite delete_insert_eq.
Qed.

(** The loop of [removeBuffers]. *)
Lemma removeBuffers_spec (file_paths : list string) :
  ∀ w, ∃ w',
    removeBuffers file_paths w = Some w'
    ∧ group w' = set_Buffers (m_Buffers (group w')) (group w)
    ∧ (m_IsParentAudioManagerValid (group w) = true →
       ∀ k, m_Buffers (group w') !! k
            = if decide (k ∈ file_paths) then None
              else m_Buffers (group w) !! k)
    ∧ (m_IsParentAudioManagerValid (group w) = false → w' = w).
Proof.
  induction file_paths as [ | p rest IH]; intros w.
  - exists w. cbn [removeBuffers]. rewrite set_Buffers_self.
    by split_and!.
  - destruct (removeBuffer_step w p) as (w1 & Hrem & Hg1 & Hnoop1).
    destruct (IH w1) as (w' & Hrun & Hg' & Hvalid' & Hnoop').
    exists w'. cbn [removeBuffers]. rewrite Hrem, Hrun.
    split; [done | ]. split; [by rewrite Hg', Hg1 | ]. split.
    + intros Hvalid k. rewrite Hvalid in Hg1.
      rewrite Hvalid' by (by rewrite Hg1).
      rewrite Hg1. rsimpl.
      destruct (decide (k ∈ rest)) as [Hk | Hk].
      * rewrite decide_True; [done | by right].
      * destruct (decide (k = p)) as [-> | Hne].
        -- rewrite decide_True by (by left). apply lookup_delete_eq.
        -- rewrite decide_False.
           ++ by apply lookup_delete_ne.
           ++ intros [-> | Hin]%elem_of_cons; done.
    + intros Hinvalid. rewrite Hnoop'.
      * by apply Hnoop1.
      * by rewrite (Hnoop1 Hinvalid).
Qed.

(** X6. Under a valid manager, after [removeBuffers] every path of the
    vector is gone, so [getBuffer] returns 0 for it, whatever the
    backend answered to the deletions and however often the path occurs
    in the vector; the entries of other keys keep their handles. *)
Theorem removeBuffers_removes w (file_paths : list string) :
  m_IsParentAudioManagerValid (group w) = true →
  ∃ w', removeBuffers file_paths w = Some w'
        ∧ (∀ p, p ∈ file_paths →
                m_Buffers (group w') !! p = None
                ∧ getBuffer p (group w') = 0)
        ∧ (∀ k, k ∉ file_paths →
                m_Buffers (group w') !! k = m_Buffers (group w) !! k).
Proof.
  intros Hvalid.
  destruct (removeBuffers_spec file_paths w) as (w' & Hrun & _ & Hmap & _).
  specialize (Hmap Hvalid).
  exists w'. split; [done | ]. split.
  - intros p Hp. unfold getBuffer. rewrite Hmap, decide_True by done. done.
  - intros k Hk. by rewrite Hmap, decide_False.
Qed.

(** X7. For a path that is not registered, [addBuffer] followed by
    [removeBuffer] on the same path gives back the object as it was: the
    same entries with the same handles and the same flags, in every
    state and whether or not the insertion or the load succeeded. *)
Theorem addBuffer_removeBuffer w p :
  m_Buffers (group w) !! p = None →
  ∃ (ok : bool) w1 w2,
    addBuffer p w = Some (ok, w1)
    ∧ removeBuffer p w1 = Some w2
    ∧ group w2 = group w.
Proof.
  intros Hnew.
  destruct (addBuffer_step w p) as (ok & w1 & Hadd & Hg1 & Hcases).
  destruct (removeBuffer_step w1 p) as (w2 & Hrem & Hg2 & _).
  exists ok, w1, w2. split; [done | ]. split; [done | ].
  assert (Hv : m_IsParentAudioManagerValid (group w1)
               = m_IsParentAudioManagerValid (group w))
    by (by rewrite Hg1).
  assert (Hset : ∀ m, set_Buffers m (group w1) = set_Buffers m (group w))
    by (intros m; by rewrite Hg1).
  rewrite Hg2, Hv, Hset.
  destruct Hcases as [(Hm & _ & _) | (_ & Hadm & h' & Hm & _)].
  - rewrite Hm.
    destruct (m_IsParentAudioManagerValid (group w));
      rewrite ?delete_id by done; apply set_Buffers_self.
  - unfold admitted in Hadm.
    destruct (m_IsParentAudioManagerValid (group w)); [ | done].
    rewrite Hm, delete_insert_eq, delete_id by done.
    apply set_Buffers_self.
Qed.

(** ** What a true result of loadBuffer and unloadBuffer means *)

(** X8. If [loadBuffer] returns true, the manager is valid, the entry
    had handle 0, the backend created a buffer with a non-zero name for
    the entry's key, and that name is what the entry holds and what
    [getBuffer] returns afterwards; no other entry is touched. *)
Theorem loadBuffer_true w it (verify_files_exist : bool) w' :
  loadBuffer it verify_files_exist w = Some (true, w') →
  m_IsParentAudioManagerValid (group w) = true
  ∧ m_Buffers (group w) !! it = Some 0
  ∧ (alureCreateBufferFromFile it (openal w)).1 ≠ 0
  ∧ getBuffer it (group w') = (alureCreateBufferFromFile it (openal w)).1
  ∧ m_Buffers (group w')
    = <[it := (alureCreateBufferFromFile it (openal w)).1]>
        (m_Buffers (group w))
  ∧ openal w' = (alureCreateBufferFromFile it (openal w)).2.
Proof.
  unfold loadBuffer.
  destruct (m_IsParentAudioManagerValid (group w)); rsimpl; [ | done].
  destruct (m_Buffers (group w) !! it) as [h | ] eqn:Hit; [ | done].
  destruct (N.eqb_spec h 0) as [-> | Hh]; rsimpl; [ | done].
  set (chk := if verify_files_exist then _ else _).
  assert (Hg : group chk.2 = group w).
  { subst chk. destruct verify_files_exist; [ | done].
    apply not_an_actual_file_group. }
  assert (Ha : openal chk.2 = openal w).
  { subst chk. destruct verify_files_exist; [ | done].
    apply not_an_actual_file_openal. }
  destruct chk as [missing w1]. cbn [fst snd] in Hg, Ha.
  destruct missing; [done | ].
  rewrite Ha.
  destruct (alureCreateBufferFromFile it (openal w)) as [nb a].
  destruct (N.eqb_spec nb AL_NONE) as [-> | Hnb]; [done | ].
  intros [= <-]. rsimpl. rewrite Hg.
  unfold getBuffer. rsimpl. rewrite lookup_insert_eq.
  by split_and!.
Qed.

(** X9. If [unloadBuffer] returns true, the manager is valid and the
    entry's handle is 0 afterwards; either it was 0 before and nothing
    was called or changed, or the backend no longer reports the old
    handle as a buffer after the deletion request. *)
Theorem unloadBuffer_true w it w' :
  unloadBuffer it w = Some (true, w') →
  m_IsParentAudioManagerValid (group w) = true
  ∧ getBuffer it (group w') = 0
  ∧ ((m_Buffers (group w) !! it = Some 0 ∧ w' = w)
     ∨ ∃ h, m_Buffers (group w) !! it = Some h
            ∧ h ≠ 0
            ∧ alIsBuffer h (alDeleteBuffers h (openal w)) = false
            ∧ openal w' = alDeleteBuffers h (openal w)).
Proof.
  unfold unloadBuffer.
  destruct (m_IsParentAudioManagerValid (group w)); rsimpl; [ | done].
  destruct (m_Buffers (group w) !! it) as [h | ] eqn:Hit; [ | done].
  destruct (N.eqb_spec h 0) as [-> | Hh]; rsimpl.
  - intros [= <-]. split_and!; [done | by apply getBuffer_lookup | by left].
  - destruct (alIsBuffer h (alDeleteBuffers h (openal w))) eqn:Hstill;
      rsimpl; [done | ].
    intros [= <-]. split_and!; [done | | ].
    + unfold getBuffer. rsimpl. by rewrite lookup_insert_eq.
    + right. exists h. by split_and!.
Qed.

(** ** What the counts of unloadBuffers and loadBuffers say *)

(** X10. In every state, if [unloadBuffers] returns 0 then no entry is
    loaded afterwards: [getBuffer] returns 0 for every path. *)
Theorem unloadBuffers_zero w w' :
  unloadBuffers w = Some (0%Z, w') →
  ∀ p, getBuffer p (group w') = 0.
Proof.
  unfold unloadBuffers.
  set (w1 := with_group (set_BufferGroupLoaded false (group w)) w).
  assert (Hm1 : m_Buffers (group w1) = m_Buffers (group w)) by done.
  rewrite Hm1. intros Hrun p.
  destruct (m_IsParentAudioManagerValid (group w)) eqn:Hvalid.
  - destruct (unloadBuffers_loop_valid
                (traversal (m_Buffers (group w))) w1 0%Z)
      as (w2 & cs & Hloop & _ & Hkeys & _).
    { done. }
    { apply NoDup_traversal. }
    { intros k Hk. rewrite Hm1. by apply elem_of_traversal. }
    rewrite Hloop in Hrun. injection Hrun as Hn <-.
    destruct (m_Buffers (group w2) !! p) as [h | ] eqn:Hp.
    2:{ unfold getBuffer. by rewrite Hp. }
    destruct (decide (getBuffer p (group w2) = 0)) as [Hz | Hnz]; [done | ].
    assert (Hin : p ∈ filter (λ k, getBuffer k (group w2) ≠ 0)
                         (traversal (m_Buffers (group w)))).
    { apply list_elem_of_filter. split; [done | ].
      apply elem_of_traversal. rewrite <- Hm1. apply Hkeys. by eexists. }
    destruct (filter _ _) as [ | x l]; [by apply elem_of_nil in Hin | ].
    cbn [length] in Hn. lia.
  - rewrite (unloadBuffers_loop_invalid _ w1 0%Z) in Hrun by done.
    injection Hrun as Hn <-.
    destruct (m_Buffers (group w1) !! p) as [h | ] eqn:Hp.
    2:{ unfold getBuffer. by rewrite Hp. }
    assert (Hin : p ∈ traversal (m_Buffers (group w))).
    { apply elem_of_traversal. rewrite <- Hm1. by eexists. }
    destruct (traversal _) as [ | x l]; [by apply elem_of_nil in Hin | ].
    cbn [length] in Hn. lia.
Qed.

Lemma length_filter_split {A} (P Q R : A → Prop)
    `{!∀ x, Decision (P x), !∀ x, Decision (Q x), !∀ x, Decision (R x)}
    (l : list A) :
  (∀ x, x ∈ l → (P x ↔ Q x ∨ R x)) →
  (∀ x, x ∈ l → ¬ (Q x ∧ R x)) →
  length (filter P l) = (length (filter Q l) + length (filter R l))%nat.
Proof.
  induction l as [ | a l IH]; intros Hsplit Hexcl; [done | ].
  rewrite !filter_cons.
  specialize (IH (λ x Hx, Hsplit x (list_elem_of_further _ _ _ Hx))
                 (λ x Hx, Hexcl x (list_elem_of_further _ _ _ Hx))).
  pose proof (Hsplit a (list_elem_of_here _ _)) as Ha.
  pose proof (Hexcl a (list_elem_of_here _ _)) as Hna.
  destruct (decide (P a)), (decide (Q a)), (decide (R a));
    cbn [length]; try lia; tauto.
Qed.

(** X11. In every state, the entries with handle 0 before
    [loadBuffers] are those it loaded plus those with handle 0
    afterwards: the result never exceeds the number of unloaded entries,
    and it is 0 on a group whose entries are all loaded. *)
Theorem loadBuffers_partition w (verify_files_exist : bool) :
  ∃ (n : Z) w',
    loadBuffers verify_files_exist w = Some (n, w')
    ∧ Z.of_nat (unloaded_count (m_Buffers (group w)))
      = (n + Z.of_nat (unloaded_count (m_Buffers (group w'))))%Z
    ∧ (0 ≤ n ≤ Z.of_nat (unloaded_count (m_Buffers (group w))))%Z.
Proof.
  unfold loadBuffers.
  set (w1 := with_group (set_BufferGroupLoaded true (group w)) w).
  assert (Hm1 : m_Buffers (group w1) = m_Buffers (group w)) by done.
  rewrite Hm1.
  destruct (loadBuffers_loop_spec verify_files_exist
              (traversal (m_Buffers (group w))) w1 0%Z)
    as (w' & cs & Hloop & _ & Hkeys & _ & Hmono & _).
  { apply NoDup_traversal. }
  { intros k Hk. rewrite Hm1. by apply elem_of_traversal. }
  rewrite Hm1 in Hkeys, Hmono.
  eexists _, w'. split; [exact Hloop | ].
  pose proof (@count_keys_size (λ (_ : string) (h : N), h = 0%N)
                (λ _ h, decide_rel (=) h 0%N) (group w)
                (traversal (m_Buffers (group w)))
                (traversal_perm _)) as Hbefore.
  pose proof (@count_keys_size (λ (_ : string) (h : N), h = 0%N)
                (λ _ h, decide_rel (=) h 0%N) (group w')
                (traversal (m_Buffers (group w)))
                (traversal_same_keys _ _ Hkeys)) as Hafter.
  cbn [fst snd] in Hbefore, Hafter. unfold unloaded_count.
  rewrite <- Hbefore, <- Hafter.
  rewrite (length_filter_split
             (λ k, getBuffer k (group w) = 0)
             (λ k, getBuffer k (group w1) = 0 ∧ getBuffer k (group w') ≠ 0)
             (λ k, getBuffer k (group w') = 0)).
  - split; lia.
  - intros k Hk. apply elem_of_traversal in Hk as [h Hk].
    assert (Hsame : getBuffer k (group w1) = getBuffer k (group w)) by done.
    rewrite Hsame, (getBuffer_lookup _ _ _ Hk).
    destruct (decide (h = 0)) as [-> | Hh].
    + destruct (decide (getBuffer k (group w') = 0)); tauto.
    + rewrite (getBuffer_lookup _ _ _ (Hmono k h Hk Hh)). tauto.
  - tauto.
Qed.

(** ** The registry under an invalidated manager *)

Lemma addBuffers_loop_invalid (file_paths : list string) :
  ∀ w (n : Z),
    m_IsParentAudioManagerValid (group w) = false →
    addBuffers_loop file_paths n w = Some (n, w).
Proof.
  induction file_paths as [ | p rest IH]; intros w n Hinvalid; [done | ].
  cbn [addBuffers_loop]. unfold addBuffer at 1. rewrite Hinvalid. rsimpl.
  by apply IH.
Qed.

Lemma loadBuffers_loop_invalid (verify_files_exist : bool)
    (iters : list string) :
  ∀ w (n : Z),
    m_IsParentAudioManagerValid (group w) = false →
    loadBuffers_loop verify_files_exist iters n w = Some (n, w).
Proof.
  induction iters as [ | k rest IH]; intros w n Hinvalid; [done | ].
  cbn [loadBuffers_loop]. unfold loadBuffer at 1. rewrite Hinvalid. rsimpl.
  by apply IH.
Qed.

(** X12. Once the manager is invalidated the registry is frozen:
    [addBuffer], [addBuffers] and [removeBuffers] return failure or 0 and
    change nothing at all, and [loadBuffers] returns 0 and changes
    nothing but the loaded flag, which it still sets.  No collaborator
    is called. *)
Theorem invalid_manager_frozen w :
  m_IsParentAudioManagerValid (group w) = false →
  (∀ p, addBuffer p w = Some (false, w))
  ∧ (∀ file_paths, addBuffers file_paths w = Some (0%Z, w))
  ∧ (∀ file_paths, removeBuffers file_paths w = Some w)
  ∧ (∀ verify_files_exist,
       loadBuffers verify_files_exist w
       = Some (0%Z, with_group (set_BufferGroupLoaded true (group w)) w)).
Proof.
  intros Hinvalid. split_and!.
  - intros p. unfold addBuffer. by rewrite Hinvalid.
  - intros file_paths. by apply addBuffers_loop_invalid.
  - intros file_paths.
    destruct (removeBuffers_spec file_paths w) as (w' & Hrun & _ & _ & Hnoop).
    by rewrite Hrun, (Hnoop Hinvalid).
  - intros v. unfold loadBuffers. by apply loadBuffers_loop_invalid.
Qed.

End Registry.

(** * Construction, clearing and destruction *)

Section LifetimeProperties.
Context `{MEnv : ManagerEnvironment}.
Implicit Types (w : World) (g : AudioBufferGroup) (h : ALuint).

(** [unloadBuffers] after the manager's purge of the group, under a
    valid manager. *)
Lemma unloadBuffers_after_group_purge w :
  m_IsParentAudioManagerValid (group w) = true →
  ∃ (n : Z) w' cs,
    unloadBuffers (after_group_purge w) = Some (n, w')
    ∧ group w'
      = set_Buffers (m_Buffers (group w'))
                    (set_BufferGroupLoaded false (group w))
    ∧ (∀ k, is_Some (m_Buffers (group w') !! k)
            ↔ is_Some (m_Buffers (group w) !! k))
    ∧ (∀ k h, m_Buffers (group w') !! k = Some h → h ≠ 0 →
              m_Buffers (group w) !! k = Some h)
    ∧ calls w' = calls w ++ cs
    ∧ deletions cs =
        filter (λ x, x ≠ 0)
               (handles (group w) (traversal (m_Buffers (group w)))).
Proof.
  intros Hvalid. unfold unloadBuffers.
  set (w1 := with_group _ (after_group_purge w)).
  assert (Hm1 : m_Buffers (group w1) = m_Buffers (group w)) by done.
  rewrite Hm1.
  destruct (unloadBuffers_loop_valid
              (traversal (m_Buffers (group w))) w1 0%Z)
    as (w' & cs & Hloop & Hg' & Hkeys & _ & Hmono & Hc & Hcs).
  { done. }
  { apply NoDup_traversal. }
  { intros k Hk. rewrite Hm1. by apply elem_of_traversal. }
  eexists _, w', cs. split; [exact Hloop | ]. by split_and!.
Qed.

(** X13. Under a valid manager [removeAllBuffers] requests the deletion
    of every non-zero handle, in traversal order, and then empties the
    registry whatever the backend answered: afterwards no key is
    registered, [getBuffer] returns 0 for every path and the loaded flag
    is cleared.  Under an invalidated manager it changes nothing, so the
    registry keeps its entries. *)
Theorem removeAllBuffers_spec w :
  (m_IsParentAudioManagerValid (group w) = true →
   ∃ w' cs,
     removeAllBuffers w = Some w'
     ∧ m_Buffers (group w') = ∅
     ∧ (∀ p, getBuffer p (group w') = 0)
     ∧ m_BufferGroupLoaded (group w') = false
     ∧ calls w' = calls w ++ cs
     ∧ deletions cs =
         filter (λ x, x ≠ 0)
                (handles (group w) (traversal (m_Buffers (group w)))))
  ∧ (m_IsParentAudioManagerValid (group w) = false →
     removeAllBuffers w = Some w).
Proof.
  unfold removeAllBuffers. split; intros Hvalid; rewrite Hvalid; [ | done].
  destruct (unloadBuffers_after_group_purge w Hvalid)
    as (n & w1 & cs & Hrun & Hg1 & _ & _ & Hc & Hcs).
  rewrite Hrun. eexists _, cs. split; [reflexivity | ].
  cbn [group with_group set_Buffers m_Buffers m_BufferGroupLoaded calls].
  split_and!; try done.
  by rewrite Hg1.
Qed.


(** X15. The constructor that takes file paths always completes and
    leaves a group with a valid manager, the given name and prefix, and
    exactly the given paths whose prefixed path is an existing regular
    file as keys.  With [load_files] the group ends in the loaded state;
    without it the loaded flag is the initial one, and if that is unset
    every entry has handle 0. *)
Theorem AudioBufferGroup_ctor_files_spec (group_name path_prefix : string)
    (file_paths : list string) (load_files : bool)
    (a : al_state) (cs : list Call) (lg : list LogEntry) :
  ∃ w',
    AudioBufferGroup_ctor_files group_name path_prefix file_paths load_files
                                a cs lg = Some w'
    ∧ m_IsParentAudioManagerValid (group w') = true
    ∧ m_GroupName (group w') = group_name
    ∧ m_PathPrefix (group w') = path_prefix
    ∧ (∀ k, is_Some (m_Buffers (group w') !! k)
            ↔ k ∈ file_paths
              ∧ fs_exists (path_prefix +:+ k) = true
              ∧ fs_is_regular_file (path_prefix +:+ k) = true)
    ∧ m_BufferGroupLoaded (group w')
      = (if load_files then true else m_BufferGroupLoaded_initial)
    ∧ (load_files = false → m_BufferGroupLoaded_initial = false →
       ∀ k h, m_Buffers (group w') !! k = Some h → h = 0).
Proof.
  unfold AudioBufferGroup_ctor_files, addBuffers.
  set (w0 := mkWorld (AudioBufferGroup_ctor group_name path_prefix) a cs lg).
  destruct (addBuffers_loop_spec file_paths w0 0%Z)
    as (n & w1 & Hadd & Hg1 & _ & Hkeys1 & _ & _ & Hexact).
  rewrite Hadd.
  assert (Hkeys : ∀ k, is_Some (m_Buffers (group w1) !! k)
            ↔ k ∈ file_paths
              ∧ fs_exists (path_prefix +:+ k) = true
              ∧ fs_is_regular_file (path_prefix +:+ k) = true).
  { intros k. rewrite Hkeys1. subst w0. unfold admitted. cbn.
    rewrite lookup_empty, andb_true_iff. split.
    - intros [[x Hx] | Hk]; [done | tauto].
    - intros Hk. right. tauto. }
  destruct load_files.
  - unfold loadBuffers.
    set (w1' := with_group (set_BufferGroupLoaded true (group w1)) w1).
    destruct (loadBuffers_loop_spec false
                (traversal (m_Buffers (group w1'))) w1' 0%Z)
      as (w2 & cs2 & Hload & Hg2 & Hkeys2 & _).
    { apply NoDup_traversal. }
    { intros k Hk. by apply elem_of_traversal. }
    rewrite Hload. exists w2. split; [done | ].
    rewrite Hg2. subst w1'. cbn. rewrite Hg1. cbn.
    split_and!; try done.
    intros k. rewrite <- Hkeys. apply Hkeys2.
  - exists w1. split; [done | ]. rewrite Hg1. cbn.
    split_and!; try done.
    intros _ Hinit k h Hk. destruct (Hexact Hinit) as [_ Hzero].
    rewrite Hzero in Hk; [congruence | done | by eexists].
Qed.

End LifetimeProperties.

(** * The further statements on the test double *)

Section MoreRuns.
Import Mock MockManager.

Lemma addBuffer_true_witness :
  ∃ w',
    addBuffer "boom.wav" root_empty_loaded = Some (true, w')
    ∧ m_Buffers (group root_empty_loaded) !! "boom.wav" = None
    ∧ admitted (group root_empty_loaded) "boom.wav" = true
    ∧ is_Some (m_Buffers (group w') !! "boom.wav")
    ∧ (if m_BufferGroupLoaded (group root_empty_loaded)
       then getBuffer "boom.wav" (group w') ≠ 0
       else m_Buffers (group w') !! "boom.wav" = Some 0)
    ∧ size (m_Buffers (group w'))
      = S (size (m_Buffers (group root_empty_loaded))).
Proof.
  eexists. split; [vm_compute; reflexivity | ].
  apply (addBuffer_true root_empty_loaded "boom.wav").
  vm_compute; reflexivity.
Defined.

Lemma addBuffers_keeps_files_witness :
  (∀ k, is_Some (m_Buffers (group sfx_unloaded) !! k) →
        fs_exists (m_PathPrefix (group sfx_unloaded) +:+ k) = true
        ∧ fs_is_regular_file (m_PathPrefix (group sfx_unloaded) +:+ k) = true)
  ∧ ∃ (n : Z) w',
      addBuffers ["miss.wav"; "absent.wav"] sfx_unloaded = Some (n, w')
      ∧ ∀ k, is_Some (m_Buffers (group w') !! k) →
             fs_exists (m_PathPrefix (group w') +:+ k) = true
             ∧ fs_is_regular_file (m_PathPrefix (group w') +:+ k) = true.
Proof.
  assert (Hinv : ∀ k, is_Some (m_Buffers (group sfx_unloaded) !! k) →
            fs_exists (m_PathPrefix (group sfx_unloaded) +:+ k) = true
            ∧ fs_is_regular_file (m_PathPrefix (group sfx_unloaded) +:+ k)
              = true).
  { intros k [h Hk].
    change (({[ "hit.wav" := 0 ]} : gmap string N) !! k = Some h) in Hk.
    apply lookup_singleton_Some in Hk as [<- _].
    split; vm_compute; reflexivity. }
  split; [exact Hinv | ].
  exact (addBuffers_keeps_files sfx_unloaded ["miss.wav"; "absent.wav"] Hinv).
Defined.

Lemma removeBuffers_removes_witness :
  m_IsParentAudioManagerValid (group playing) = true
  ∧ ∃ w', removeBuffers ["boom.wav"; "absent.wav"; "boom.wav"] playing
          = Some w'
          ∧ (∀ p, p ∈ ["boom.wav"; "absent.wav"; "boom.wav"] →
                  m_Buffers (group w') !! p = None
                  ∧ getBuffer p (group w') = 0)
          ∧ (∀ k, k ∉ ["boom.wav"; "absent.wav"; "boom.wav"] →
                  m_Buffers (group w') !! k = m_Buffers (group playing) !! k).
Proof.
  split; [vm_compute; reflexivity | ].
  apply (removeBuffers_removes playing). vm_compute; reflexivity.
Defined.

Lemma addBuffer_removeBuffer_witness :
  m_Buffers (group sfx_empty_loaded) !! "hit.wav" = None
  ∧ ∃ (ok : bool) w1 w2,
      addBuffer "hit.wav" sfx_empty_loaded = Some (ok, w1)
      ∧ removeBuffer "hit.wav" w1 = Some w2
      ∧ group w2 = group sfx_empty_loaded.
Proof.
  split; [vm_compute; reflexivity | ].
  apply (addBuffer_removeBuffer sfx_empty_loaded "hit.wav").
  vm_compute; reflexivity.
Defined.

Lemma loadBuffer_true_witness :
  ∃ w',
    loadBuffer "sfx/miss.wav" true playing = Some (true, w')
    ∧ m_IsParentAudioManagerValid (group playing) = true
    ∧ m_Buffers (group playing) !! "sfx/miss.wav" = Some 0
    ∧ (alureCreateBufferFromFile "sfx/miss.wav" (openal playing)).1 ≠ 0
    ∧ getBuffer "sfx/miss.wav" (group w')
      = (alureCreateBufferFromFile "sfx/miss.wav" (openal playing)).1
    ∧ m_Buffers (group w')
      = <["sfx/miss.wav" :=
            (alureCreateBufferFromFile "sfx/miss.wav" (openal playing)).1]>
          (m_Buffers (group playing))
    ∧ openal w'
      = (alureCreateBufferFromFile "sfx/miss.wav" (openal playing)).2.
Proof.
  eexists. split; [vm_compute; reflexivity | ].
  apply (loadBuffer_true playing "sfx/miss.wav" true).
  vm_compute; reflexivity.
Defined.

Lemma unloadBuffer_true_witness :
  ∃ w',
    unloadBuffer "sfx/hit.wav" playing = Some (true, w')
    ∧ m_IsParentAudioManagerValid (group playing) = true
    ∧ getBuffer "sfx/hit.wav" (group w') = 0
    ∧ ((m_Buffers (group playing) !! "sfx/hit.wav" = Some 0 ∧ w' = playing)
       ∨ ∃ h, m_Buffers (group playing) !! "sfx/hit.wav" = Some h
              ∧ h ≠ 0
              ∧ alIsBuffer h (alDeleteBuffers h (openal playing)) = false
              ∧ openal w' = alDeleteBuffers h (openal playing)).
Proof.
  eexists. split; [vm_compute; reflexivity | ].
  apply (unloadBuffer_true playing "sfx/hit.wav").
  vm_compute; reflexivity.
Defined.

Lemma unloadBuffers_zero_witness :
  ∃ w', unloadBuffers idle = Some (0%Z, w')
        ∧ ∀ p, getBuffer p (group w') = 0.
Proof.
  eexists. split; [vm_compute; reflexivity | ].
  apply (unloadBuffers_zero idle). vm_compute; reflexivity.
Defined.

Lemma invalid_manager_frozen_witness :
  m_IsParentAudioManagerValid (group orphaned) = false
  ∧ (∀ p, addBuffer p orphaned = Some (false, orphaned))
  ∧ (∀ file_paths, addBuffers file_paths orphaned = Some (0%Z, orphaned))
  ∧ (∀ file_paths, removeBuffers file_paths orphaned = Some orphaned)
  ∧ (∀ verify_files_exist,
       loadBuffers verify_files_exist orphaned
       = Some (0%Z,
               with_group (set_BufferGroupLoaded true (group orphaned))
                          orphaned)).
Proof.
  split; [vm_compute; reflexivity | ].
  apply (invalid_manager_frozen orphaned). vm_compute; reflexivity.
Defined.

Lemma removeAllBuffers_spec_witness :
  (∃ w' cs,
     removeAllBuffers playing = Some w'
     ∧ m_Buffers (group w') = ∅
     ∧ (∀ p, getBuffer p (group w') = 0)
     ∧ m_BufferGroupLoaded (group w') = false
     ∧ calls w' = calls playing ++ cs
     ∧ deletions cs =
         filter (λ x, x ≠ 0)
                (handles (group playing)
                         (traversal (m_Buffers (group playing)))))
  ∧ removeAllBuffers orphaned = Some orphaned.
Proof.
  split.
  - apply (proj1 (removeAllBuffers_spec (MEnv := MockManager.env) playing)). vm_compute; reflexivity.
  - apply (proj2 (removeAllBuffers_spec (MEnv := MockManager.env) orphaned)). vm_compute; reflexivity.
Defined.


(** ** Further evaluations *)

Example removeAllBuffers_playing :
  removeAllBuffers playing
  = Some (mkWorld (mkGroup true "fx" "" ∅ false) (mkAl [3] [] [3] 5)
                  [call_alDeleteBuffers 4; call_alIsBuffer 4;
                   call_alDeleteBuffers 3; call_alIsBuffer 3;
                   call_alureGetErrorString]
                  [mkLog (msg_still_in_use "fx" "boom.wav") LML_CRITICAL
                         false]).
Proof. vm_compute. reflexivity. Qed.

Example ctor_files_sfx :
  ∃ w', AudioBufferGroup_ctor_files "fx" "sfx/"
          ["hit.wav"; "absent.wav"; "hit.wav"; "miss.wav"] false fresh [] []
        = Some w'
        ∧ group w' = mkGroup true "fx" "sfx/"
                       {[ "hit.wav" := 0; "miss.wav" := 0 ]} false.
Proof. eexists. split; vm_compute; reflexivity. Qed.

Example addBuffers_loaded_prefix :
  ∃ w', addBuffers ["hit.wav"; "miss.wav"] sfx_empty_loaded = Some (0%Z, w')
        ∧ size (m_Buffers (group w')) = 2%nat.
Proof. eexists. split; vm_compute; reflexivity. Qed.

End MoreRuns.
